(** * Outlier detection engine of ml2-ensemble: a shallow embedding

    This development embeds [src/outlier_detection.py] (class
    [OutlierManager]) and states the properties of its detectors and of
    its summary aggregator.

    Modelling conventions.
    - In the model of the frames and of the detectors a float64 is an
      exact rational ([Q]); the few places where the code can produce
      [nan] or an infinity carry an explicit extended value. Comparisons
      are the boolean ones of the code. This idealisation is used for
      what does not depend on rounding: shapes, counts, error paths, and
      examples whose comparisons are decided by a wide margin.
    - Where a statement depends on rounding, the computation is embedded
      over IEEE binary64 ([float], with the operations of the kernel):
      the column body of the SD detector is [sd_mask64].
    - [np.sqrt], [scipy.stats.t.ppf], scikit-learn's models and the plotly
      sink are external libraries: they are the fields of the classes
      [NumericLib] and [ModelLib], and every definition is parametric in
      them.
    - A numpy masked array is a list of optional values, [None] being a
      masked cell ([--]).
    - A raised Python exception is the [Raise] branch of [result]. *)

From Stdlib Require Import Floats.
From Stdlib Require Uint63.
From Stdlib Require Import QArith Qabs Qround ZArith List String Bool Lia Lra Psatz.
From Stdlib Require Import Setoid Morphisms Sorted.
From stdpp Require Import gmap strings.
Import ListNotations.

#[local] Unset Default Proof Using.
#[local] Open Scope Q_scope.

(* ===================================================================== *)
(** ** Exceptions *)
(* ===================================================================== *)

Inductive exn : Type :=
| AssertionError (msg : string)
| ValueError
| ZeroDivisionError
| KeyError
| IndexError
| TypeError
| InvalidParameterError
| RenderError.

Inductive result (A : Type) : Type :=
| Ok (a : A)
| Raise (e : exn).
Arguments Ok {A} a.
Arguments Raise {A} e.

Definition bind {A B : Type} (m : result A) (k : A -> result B) : result B :=
  match m with
  | Ok a => k a
  | Raise e => Raise e
  end.

Notation "x <- m ;; k" := (bind m (fun x => k))
  (at level 100, m at next level, right associativity).

(** Python's [assert cond, msg]. *)
Definition py_assert (cond : bool) (msg : string) : result unit :=
  if cond then Ok tt else Raise (AssertionError msg).

(* ===================================================================== *)
(** ** Numbers *)
(* ===================================================================== *)

Definition Qltb (x y : Q) : bool := negb (Qle_bool y x).
Definition Qgtb (x y : Q) : bool := Qltb y x.
Definition Qeqb (x y : Q) : bool := Qeq_bool x y.

(** A float that may be non-finite: the result of a float division. *)
Inductive fnum : Type :=
| Fin (q : Q)
| PInf
| NInf
| NaN.

(** [a / b] on float64 scalars of numpy: a zero divisor gives an infinity
    or [nan], never an exception. *)
Definition np_divide (a b : Q) : fnum :=
  if Qeqb b 0 then
    (if Qltb 0 a then PInf else if Qltb a 0 then NInf else NaN)
  else Fin (a / b).

(** The external numeric routines. [t_ppf p df] is [None] when scipy
    returns [nan] (or a non-finite quantile). *)
Class NumericLib : Type := {
  np_sqrt : Q -> Q;
  t_ppf : Q -> Z -> option Q
}.

Definition Qsum (l : list Q) : Q := fold_right Qplus 0 l.

Definition Qlen {A : Type} (l : list A) : Q := inject_Z (Z.of_nat (length l)).

(* ===================================================================== *)
(** ** Plain ndarray reductions *)
(* ===================================================================== *)

Section Ndarray.
Context {L : NumericLib}.

(** [ts.mean()] *)
Definition nd_mean (ts : list Q) : Q := Qsum ts / Qlen ts.

(** [ts.var(ddof)]: mean of the squared deviations, divisor [n - ddof]. *)
Definition nd_var (ddof : Z) (ts : list Q) : Q :=
  let m := nd_mean ts in
  Qsum (map (fun x => (x - m) * (x - m)) ts)
    / inject_Z (Z.of_nat (length ts) - ddof).

(** [ts.std()], with numpy's default [ddof = 0]. *)
Definition nd_std (ts : list Q) : Q := np_sqrt (nd_var 0 ts).
End Ndarray.

(** Ascending sort, as [np.sort] or the partition inside [np.quantile]. *)
Fixpoint insert_sorted (x : Q) (l : list Q) : list Q :=
  match l with
  | [] => [x]
  | y :: l' => if Qle_bool x y then x :: l else y :: insert_sorted x l'
  end.

Definition np_sort (l : list Q) : list Q := fold_right insert_sorted [] l.

(** [np.quantile(ts, q)] with the default method (linear interpolation
    between the two order statistics around the virtual index
    [(n - 1) * q]). An empty array has no order statistic to index. *)
Definition np_quantile (ts : list Q) (q : Q) : result Q :=
  let a := np_sort ts in
  let n := length ts in
  match n with
  | O => Raise IndexError
  | S n1 =>
      let virtual := inject_Z (Z.of_nat n1) * q in
      if Qle_bool (inject_Z (Z.of_nat n1)) virtual then Ok (List.last a 0)
      else if Qltb virtual 0 then Ok (List.hd 0 a)
      else
        let previous := Z.to_nat (Qfloor virtual) in
        let gamma := virtual - inject_Z (Qfloor virtual) in
        let lo := nth previous a 0 in
        let hi := nth (S previous) a 0 in
        Ok (lo + (hi - lo) * gamma)
  end.

(* ===================================================================== *)
(** ** numpy masked arrays *)
(* ===================================================================== *)

(** A one-dimensional [np.ma.MaskedArray]: [None] is a masked cell. A
    masked scalar (the constant [np.ma.masked]) is [None] as well. *)
Abbreviation marray := (list (option Q)).

(** [np.ma.array(ts)]: nothing is masked. *)
Definition ma_array (ts : list Q) : marray := map Some ts.

(** [a.count()]: the number of unmasked cells. *)
Definition ma_count (a : marray) : nat :=
  List.length (List.filter (fun c => match c with Some _ => true | None => false end) a).

(** [a.filled(v)] *)
Definition ma_filled (v : Q) (a : marray) : list Q :=
  map (fun c => match c with Some x => x | None => v end) a.

(** [a.sum()]: masked cells count for zero. *)
Definition ma_sum (a : marray) : Q := Qsum (ma_filled 0 a).

(** [a.compressed()]: the unmasked values, in order. *)
Definition ma_compressed (a : marray) : list Q :=
  flat_map (fun c => match c with Some x => [x] | None => [] end) a.

(** [a.mean()]: [masked] when no cell is left. *)
Definition ma_mean (a : marray) : option Q :=
  match ma_count a with
  | O => None
  | cnt => Some (ma_sum a / inject_Z (Z.of_nat cnt))
  end.

(** Elementwise [a - s], [a / s] and [np.abs(a)] for a scalar [s]. A
    masked scalar masks every cell; numpy's masked division also masks
    the cells whose divisor is zero. *)
Definition ma_sub_scalar (a : marray) (s : option Q) : marray :=
  match s with
  | None => map (fun _ => None) a
  | Some v => map (option_map (fun x => x - v)) a
  end.

Definition ma_div_scalar (a : marray) (s : option Q) : marray :=
  match s with
  | None => map (fun _ => None) a
  | Some d =>
      if Qeqb d 0 then map (fun _ => None) a
      else map (option_map (fun x => x / d)) a
  end.

Definition ma_abs (a : marray) : marray := map (option_map Qabs) a.

Section MaskedReductions.
Context {L : NumericLib}.

(** [a.var(ddof)] of a masked array: the divisor is the count of
    unmasked cells minus [ddof]; the result is [masked] when that
    divisor is zero. *)
Definition ma_var (ddof : Z) (a : marray) : option Q :=
  match ma_mean a with
  | None => None
  | Some m =>
      let cnt := (Z.of_nat (ma_count a) - ddof)%Z in
      let danom := map (option_map (fun x => (x - m) * (x - m))) a in
      if (cnt =? 0)%Z then None
      else Some (ma_sum danom / inject_Z cnt)
  end.

(** [a.std()], default [ddof = 0]. *)
Definition ma_std (a : marray) : option Q := option_map np_sqrt (ma_var 0 a).
End MaskedReductions.

(** [np.ma.median(a)]: the middle order statistic of the unmasked values,
    or the mean of the two middle ones. *)
Definition ma_median (a : marray) : option Q :=
  let asorted := np_sort (ma_compressed a) in
  let cnt := List.length asorted in
  match cnt with
  | O => None
  | _ =>
      let idx := Nat.div cnt 2 in
      if Nat.odd cnt then Some (nth idx asorted 0)
      else Some ((nth (idx - 1) asorted 0 + nth idx asorted 0) / 2)
  end.

(** Order on scores used by [argmax]: a masked cell is filled with the
    smallest value, so it lies below every number. *)
Definition score_ltb (a b : option Q) : bool :=
  match a, b with
  | _, None => false
  | None, Some _ => true
  | Some x, Some y => Qltb x y
  end.

Fixpoint argmax_from (best_idx : nat) (best : option Q) (i : nat) (l : marray) : nat :=
  match l with
  | [] => best_idx
  | x :: l' =>
      if score_ltb best x then argmax_from i x (S i) l'
      else argmax_from best_idx best (S i) l'
  end.

(** [np.argmax(scores)]: index of the first maximum; an empty sequence
    raises [ValueError]. *)
Definition np_argmax (scores : marray) : result nat :=
  match scores with
  | [] => Raise ValueError
  | x :: l => Ok (argmax_from 0 x 1 l)
  end.

(** [np.zeros_like(a)] on a masked array: numpy allocates the result
    with [empty_like], and the [__array_finalize__] hook of
    [MaskedArray] gives it a copy of the mask of [a]; the zeros are then
    written into the data. The result has the shape and the mask of
    [a]. *)
Definition np_zeros_like (a : marray) : marray := map (option_map (fun _ => 0)) a.

(** [a[indices] = v] for a list of positions: [MaskedArray.__setitem__]
    writes the value and clears the mask at these positions. *)
Definition ma_setitems (a : marray) (indices : list nat) (v : Q) : marray :=
  fold_left (fun acc i => <[i := Some v]> acc) indices a.

(** A cell of a pandas column of flags: [None] is a missing value
    ([NaN]). When a masked array is assigned to a DataFrame column,
    pandas fills its masked cells with [NaN] (and a boolean column with
    such cells becomes an object column). A plain boolean ndarray gives
    a column without missing cells. *)
Abbreviation cell := (option bool).

(** [a.astype(bool)], which keeps the mask, followed by the store
    [outlier_masks[col] = outlier_mask]. *)
Definition ma_astype_bool (a : marray) : list cell :=
  map (option_map (fun x => negb (Qeqb x 0))) a.

(* ===================================================================== *)
(** ** Generalized ESD *)
(* ===================================================================== *)

Section GeneralizedESD.
Context {L : NumericLib}.

(** [calculate_test_statistic(ts, hybrid)] *)
Definition calculate_test_statistic (ts : marray) (hybrid : bool)
  : result (nat * option Q) :=
  let scores :=
    if hybrid then
      let median := ma_median ts in
      let mad := ma_median (ma_abs (ma_sub_scalar ts median)) in
      ma_abs (ma_div_scalar (ma_sub_scalar ts median) mad)
    else
      ma_abs (ma_div_scalar (ma_sub_scalar ts (ma_mean ts)) (ma_std ts)) in
  max_idx <- np_argmax scores ;;
  Ok (max_idx, nth max_idx scores None).

(** [calculate_critical_value(size, alpha)]. [alpha / (2 * size)] is a
    Python float division: it raises on [size = 0]. *)
Definition calculate_critical_value (size : Z) (alpha : Q) : result fnum :=
  if (size =? 0)%Z then Raise ZeroDivisionError
  else
    let sz := inject_Z size in
    match t_ppf (1 - alpha / (2 * sz)) (size - 2)%Z with
    | None => Ok NaN
    | Some t_dist =>
        let numerator := (sz - 1) * t_dist in
        let radicand := sz * sz - sz * 2 + sz * (t_dist * t_dist) in
        if Qltb radicand 0 then Ok NaN
        else Ok (np_divide numerator (np_sqrt radicand))
    end.

(** [test_val > critical_val]; a masked or [nan] operand is falsy. *)
Definition exceeds (test_val : option Q) (critical_val : fnum) : bool :=
  match test_val, critical_val with
  | Some v, Fin c => Qgtb v c
  | Some _, NInf => true
  | _, _ => false
  end.

(** The variables of the loop of [detect_outlier_generalized_esd]. *)
Record esd_state : Type := {
  st_ts : marray;
  st_test_statistics : list nat;
  st_num_outliers : nat
}.

(** One iteration of [for curr in range(max_anomalies)]. *)
Definition esd_step (alpha : Q) (hybrid : bool) (st : esd_state) (curr : nat)
  : result esd_state :=
  stat <- calculate_test_statistic (st_ts st) hybrid ;;
  let test_idx := fst stat in
  let test_val := snd stat in
  critical_val <-
    calculate_critical_value
      (Z.of_nat (List.length (st_ts st)) - Z.of_nat curr)%Z alpha ;;
  Ok {| st_ts := <[test_idx := None]> (st_ts st);
        st_test_statistics := st_test_statistics st ++ [test_idx];
        st_num_outliers :=
          if exceeds test_val critical_val then curr else st_num_outliers st |}.

Fixpoint esd_loop (alpha : Q) (hybrid : bool) (range : list nat) (st : esd_state)
  : result esd_state :=
  match range with
  | [] => Ok st
  | curr :: range' =>
      st' <- esd_step alpha hybrid st curr ;;
      esd_loop alpha hybrid range' st'
  end.

Definition esd_init (ts : list Q) : esd_state :=
  {| st_ts := ma_array ts; st_test_statistics := []; st_num_outliers := 0 |}.

(** [anomalous_indices] after the loop. *)
Definition anomalous_indices (st : esd_state) : list nat :=
  if (0 <? st_num_outliers st)%nat
  then firstn (st_num_outliers st + 1) (st_test_statistics st)
  else [].

(** The body of the column loop of [detect_outlier_generalized_esd]:
    the column of the returned frame for the values [ts].
    [max_anomalies] is a non-negative int ([range] of a negative one is
    empty, like [range(0)]). *)
Definition generalized_esd_column (ts : list Q) (max_anomalies : nat)
    (alpha : Q) (hybrid : bool) : result (list cell) :=
  st <- esd_loop alpha hybrid (seq 0 max_anomalies) (esd_init ts) ;;
  let outlier_mask := np_zeros_like (st_ts st) in
  let outlier_mask := ma_setitems outlier_mask (anomalous_indices st) 1 in
  Ok (ma_astype_bool outlier_mask).
End GeneralizedESD.

(* ===================================================================== *)
(** ** DataFrames *)
(* ===================================================================== *)

(** A column of a DataFrame: numeric dtype, or anything else (which
    [select_dtypes(include=np.number)] drops). *)
Inductive column : Type :=
| Numeric (values : list Q)
| Object (values : list string).

Definition column_length (c : column) : nat :=
  match c with
  | Numeric v => List.length v
  | Object v => List.length v
  end.

Section Frames.
Context {K : Type}.

(** The input table: row keys and named columns. *)
Record DataFrame : Type := {
  index : list K;
  columns : list (string * column)
}.

(** Every column has one value per row key and names are distinct, as
    pandas guarantees for the frames the detectors receive. *)
Definition wf_frame (df : DataFrame) : Prop :=
  Forall (fun nc => column_length (snd nc) = List.length (index df)) (columns df)
  /\ NoDup (map fst (columns df)).

(** A frame of outlier flags, [outlier_masks] in the code. *)
Record MaskFrame : Type := {
  mask_index : list K;
  mask_columns : list (string * list cell)
}.

(** [df.select_dtypes(include=np.number).columns] with [df[col].values]. *)
Definition numeric_cols (df : DataFrame) : list (string * list Q) :=
  flat_map (fun nc => match snd nc with
                      | Numeric v => [(fst nc, v)]
                      | Object _ => []
                      end) (columns df).

(** [frame[col]]: the column of that name. *)
Fixpoint get_column {A : Type} (col : string) (cols : list (string * A)) : result A :=
  match cols with
  | [] => Raise KeyError
  | (name, v) :: cols' =>
      if String.eqb col name then Ok v else get_column col cols'
  end.

(** The loop [for col in numeric_cols: ...; outlier_masks[col] = mask]
    for a column body that cannot raise. *)
Definition column_wise (body : list Q -> list cell) (df : DataFrame) : MaskFrame :=
  {| mask_index := index df;
     mask_columns := map (fun nc => (fst nc, body (snd nc))) (numeric_cols df) |}.

(** The same loop for a body that can raise: the first exception ends
    the call. *)
Fixpoint column_loop (body : list Q -> result (list cell))
    (cols : list (string * list Q)) : result (list (string * list cell)) :=
  match cols with
  | [] => Ok []
  | (name, ts) :: cols' =>
      m <- body ts ;;
      rest <- column_loop body cols' ;;
      Ok ((name, m) :: rest)
  end.

Definition column_wise_raising (body : list Q -> result (list cell))
    (df : DataFrame) : result MaskFrame :=
  cols <- column_loop body (numeric_cols df) ;;
  Ok {| mask_index := index df; mask_columns := cols |}.
End Frames.
Arguments DataFrame K : clear implicits.
Arguments MaskFrame K : clear implicits.

(* ===================================================================== *)
(** ** Column-wise detectors *)
(* ===================================================================== *)

Section ColumnDetectors.
Context {L : NumericLib} {K : Type}.

(** Column body of [detect_outlier_sd]. *)
Definition sd_mask (sd_multiple : Q) (ts : list Q) : list bool :=
  let mean := nd_mean ts in
  let std := nd_std ts in
  let higher_bound := mean + sd_multiple * std in
  let lower_bound := mean - sd_multiple * std in
  map (fun v => Qgtb v higher_bound || Qltb v lower_bound) ts.

Definition detect_outlier_sd (df : DataFrame K) (sd_multiple : Q) : MaskFrame K :=
  column_wise (fun ts => map Some (sd_mask sd_multiple ts)) df.

(** Column body of [detect_outlier_iqr]. *)
Definition iqr_mask (iqr_multiple : Q) (ts : list Q) : result (list bool) :=
  q1 <- np_quantile ts (1 # 4) ;;
  q2 <- np_quantile ts (1 # 2) ;;
  q3 <- np_quantile ts (3 # 4) ;;
  let iqr := q3 - q1 in
  let higher_bound := q3 + iqr_multiple * iqr in
  let lower_bound := q1 - iqr_multiple * iqr in
  Ok (map (fun v => Qgtb v higher_bound || Qltb v lower_bound) ts).

Definition detect_outlier_iqr (df : DataFrame K) (iqr_multiple : Q)
  : result (MaskFrame K) :=
  column_wise_raising
    (fun ts => m <- iqr_mask iqr_multiple ts ;; Ok (map Some m)) df.

(** [detect_outlier_generalized_esd] *)
Definition detect_outlier_generalized_esd (df : DataFrame K)
    (max_anomalies : nat) (alpha : Q) (hybrid : bool) : result (MaskFrame K) :=
  column_wise_raising
    (fun ts => generalized_esd_column ts max_anomalies alpha hybrid) df.
End ColumnDetectors.

(* ===================================================================== *)
(** ** The SD detector in binary64 *)
(* ===================================================================== *)

Section Float64.
#[local] Open Scope float_scope.

(** The conversion of a count to float64. *)
Definition f64_of_nat (n : nat) : float :=
  PrimFloat.of_uint63 (Uint63.of_Z (Z.of_nat n)).

(** numpy sums a float64 array by pairwise summation (the inner loop of
    [np.add.reduce], which receives a float64 array whole): fewer than 8
    values are added in order, starting from [-0.0]; up to 128 values go
    through eight accumulators that are then added as a tree, the
    remaining values being added in order; a longer array is split in
    two halves, the first of a length that is a multiple of 8. The
    initial value of the accumulator can change the sign of a sum that
    is zero and nothing else; no comparison of the detector sees it. *)
Definition sum_loop (res : float) (a : list float) : float :=
  fold_left PrimFloat.add a res.

(** [r[j] += a[i + j]] for the eight accumulators. *)
Fixpoint add_lanes (r chunk : list float) : list float :=
  match r, chunk with
  | x :: r', y :: chunk' => (x + y) :: add_lanes r' chunk'
  | _, _ => r
  end.

(** The loop over the blocks of eight values: the accumulators and the
    values that are left. *)
Fixpoint lanes_loop (chunks : nat) (r a : list float) : list float * list float :=
  match chunks with
  | O => (r, a)
  | S chunks' => lanes_loop chunks' (add_lanes r (firstn 8 a)) (skipn 8 a)
  end.

(** The branch for 8 to 128 values (with fewer values, which the
    caller excludes, it adds them in order). *)
Definition pairwise_block (a : list float) : float :=
  let '(r, rest) := lanes_loop (List.length a / 8 - 1) (firstn 8 a) (skipn 8 a) in
  match r with
  | [r0; r1; r2; r3; r4; r5; r6; r7] =>
      sum_loop (((r0 + r1) + (r2 + r3)) + ((r4 + r5) + (r6 + r7))) rest
  | _ => sum_loop (-0) a
  end.

(** The recursion on the halves is bounded by [depth]; every half is
    shorter than the array, so the length of the array is depth
    enough. *)
Fixpoint pairwise_sum (depth : nat) (a : list float) : float :=
  let n := List.length a in
  if (n <? 8)%nat then sum_loop (-0) a
  else if (n <=? 128)%nat then pairwise_block a
  else
    match depth with
    | O => pairwise_block a
    | S depth' =>
        let n2 := (n / 2 - (n / 2) mod 8)%nat in
        pairwise_sum depth' (firstn n2 a) + pairwise_sum depth' (skipn n2 a)
    end.

Definition np_sum64 (a : list float) : float := pairwise_sum (List.length a) a.

(** [ts.mean()]: the sum over the count; [nan] for no value. *)
Definition nd_mean64 (ts : list float) : float :=
  np_sum64 ts / f64_of_nat (List.length ts).

(** [ts.var(ddof)] as numpy computes it: the mean, the deviations
    [x = arr - arrmean], their squares [multiply(x, x)], the sum of the
    squares over [n - ddof]. *)
Definition nd_var64 (ddof : nat) (ts : list float) : float :=
  let arrmean := nd_mean64 ts in
  let x := map (fun v => v - arrmean) ts in
  let x := map (fun d => d * d) x in
  np_sum64 x / f64_of_nat (List.length ts - ddof).

(** [ts.std()], default [ddof = 0]. *)
Definition nd_std64 (ts : list float) : float := PrimFloat.sqrt (nd_var64 0 ts).

(** The body of the column loop of [detect_outlier_sd] on a float64
    column ([ts > higher_bound] is [higher_bound < ts]). No operation of
    it can raise: a division by zero or an invalid operation of numpy
    answers an infinity or [nan], with a warning. *)
Definition sd_mask64 (sd_multiple : float) (ts : list float) : list bool :=
  let mean := nd_mean64 ts in
  let std := nd_std64 ts in
  let higher_bound := mean + sd_multiple * std in
  let lower_bound := mean - sd_multiple * std in
  map (fun v => (higher_bound <? v) || (v <? lower_bound)) ts.

(** The float64 that the literal [0.1] denotes. *)
Definition one_tenth : float := 0x1.999999999999ap-4.

(** A float that is a zero or [nan]. *)
Definition vanishing (x : float) : Prop :=
  match Prim2SF x with
  | S754_zero _ | S754_nan => True
  | _ => False
  end.
End Float64.

(* ===================================================================== *)
(** ** Isolation-forest detectors *)
(* ===================================================================== *)

(** The [outlier_fraction] argument: a string or a number. *)
Inductive fraction : Type :=
| FracStr (s : string)
| FracNum (q : Q).

(** A value of the keyword-argument dictionary. *)
Inductive kwval : Type :=
| KStr (s : string)
| KNum (q : Q)
| KInt (z : Z)
| KBool (b : bool).

Definition kw_of_fraction (f : fraction) : kwval :=
  match f with
  | FracStr s => KStr s
  | FracNum q => KNum q
  end.

(** scikit-learn and the plotting sink.
    - [isolation_forest kwargs X] is [fit_predict(X)] of an
      [IsolationForest] built from the keyword arguments [kwargs]
      (equally [fit] then [predict] on the same rows): one label per
      row, [-1] for an outlier and [1] for an inlier; [None] when the
      model raises. The seed is one of the keyword arguments, so the
      answer is a function of [kwargs] and [X].
    - [fit_error kwargs X] is the exception of a call that raises: the
      [TypeError] of the constructor for a keyword it does not know, the
      [InvalidParameterError] of the parameter validation that opens
      [fit], or whatever the fit itself raises.
    - [show_figure X labels] is the plotting branch (scaling, PCA and
      the figure); [false] when it raises.
    - [format_float] renders a float inside an f-string. *)
Class ModelLib : Type := {
  isolation_forest : gmap string kwval -> list (list Q) -> option (list Z);
  fit_error : gmap string kwval -> list (list Q) -> exn;
  show_figure : list (list Q) -> list Z -> bool;
  format_float : Q -> string
}.

Section IsolationForest.
Context {L : NumericLib} {M : ModelLib} {K : Type}.

(** The two asserts that open [detect_outlier_isolation_forest]. *)
Definition check_outlier_fraction (outlier_fraction : fraction) : result unit :=
  match outlier_fraction with
  | FracStr s =>
      py_assert (String.eqb s "auto")
        "outlier_fraction must be between 0 and 0.5 or 'auto'"
  | FracNum q =>
      py_assert (Qle_bool 0 q && Qle_bool q (1 # 2))
        "outlier_fraction must be between 0 and 0.5"
  end.

(** [StandardScaler().fit_transform(ts.reshape(-1, 1))]: zero mean and
    unit variance; a constant column is only centred; no sample is an
    error. *)
Definition standard_scale (ts : list Q) : result (list (list Q)) :=
  match ts with
  | [] => Raise ValueError
  | _ =>
      let mean := nd_mean ts in
      let var := nd_var 0 ts in
      let scale := if Qeqb var 0 then 1 else np_sqrt var in
      Ok (map (fun x => [(x - mean) / scale]) ts)
  end.

(** [pred = 1 - np.clip(pred, a_min=0, a_max=None)] then
    [pred.astype(bool)]. *)
Definition label_to_flag (p : Z) : bool := negb (1 - Z.max p 0 =? 0)%Z.

(** One iteration of the column loop: the dictionary [kwargs] is
    updated in place and carried to the next column. *)
Definition isolation_forest_column (n_rows : nat) (outlier_fraction : fraction)
    (kwargs : gmap string kwval) (ts : list Q)
  : result (gmap string kwval * list cell) :=
  scaled_time_series <- standard_scale ts ;;
  let kwargs := <["contamination" := kw_of_fraction outlier_fraction]> kwargs in
  let kwargs := <["random_state" := KInt 42]> kwargs in
  match isolation_forest kwargs scaled_time_series with
  | None => Raise (fit_error kwargs scaled_time_series)
  | Some pred =>
      let outlier_mask := map (fun p => Some (label_to_flag p)) pred in
      (* [outlier_masks[col] = outlier_mask] checks the length *)
      if (List.length outlier_mask =? n_rows)%nat then Ok (kwargs, outlier_mask)
      else Raise ValueError
  end.

Fixpoint isolation_forest_loop (n_rows : nat) (outlier_fraction : fraction)
    (kwargs : gmap string kwval) (cols : list (string * list Q))
  : result (list (string * list cell)) :=
  match cols with
  | [] => Ok []
  | (name, ts) :: cols' =>
      r <- isolation_forest_column n_rows outlier_fraction kwargs ts ;;
      rest <- isolation_forest_loop n_rows outlier_fraction (fst r) cols' ;;
      Ok ((name, snd r) :: rest)
  end.

(** [detect_outlier_isolation_forest(df, outlier_fraction, **kwargs)] *)
Definition detect_outlier_isolation_forest (df : DataFrame K)
    (outlier_fraction : fraction) (kwargs : gmap string kwval)
  : result (MaskFrame K) :=
  _ <- check_outlier_fraction outlier_fraction ;;
  cols <- isolation_forest_loop (List.length (index df)) outlier_fraction kwargs
            (numeric_cols df) ;;
  Ok {| mask_index := index df; mask_columns := cols |}.

(** [df[numeric_cols]] as rows. *)
Definition numeric_rows (df : DataFrame K) : list (list Q) :=
  map (fun i => map (fun nc => nth i (snd nc) 0) (numeric_cols df))
      (seq 0 (List.length (index df))).

(** [series.value_counts()]: each distinct label with its number of
    occurrences (pandas also sorts the entries by count, which a lookup
    by label does not see). *)
Fixpoint count_label (label : Z) (counts : list (Z * nat)) : list (Z * nat) :=
  match counts with
  | [] => [(label, 1%nat)]
  | (l, c) :: counts' =>
      if (l =? label)%Z then (l, S c) :: counts'
      else (l, c) :: count_label label counts'
  end.

Definition value_counts (labels : list Z) : list (Z * nat) :=
  fold_left (fun counts l => count_label l counts) labels [].

(** [counts[label]]: a lookup by label. *)
Fixpoint counts_getitem (label : Z) (counts : list (Z * nat)) : result nat :=
  match counts with
  | [] => Raise KeyError
  | (l, c) :: counts' =>
      if (l =? label)%Z then Ok c else counts_getitem label counts'
  end.

Definition multivariable_kwargs (contaminacion : Q) (n_estimators random_state : Z)
  : gmap string kwval :=
  <["n_estimators" := KInt n_estimators]>
  (<["max_samples" := KNum (2 # 5)]>
  (<["contamination" := KNum contaminacion]>
  (<["max_features" := KNum 1]>
  (<["bootstrap" := KBool true]>
  (<["n_jobs" := KInt (-1)]>
  (<["random_state" := KInt random_state]>
  (<["verbose" := KInt 0]>
  (<["warm_start" := KBool false]> ∅)))))))).

(** [detect_outlier_multivariable_isolation_forest] *)
Definition detect_outlier_multivariable_isolation_forest (df : DataFrame K)
    (contaminacion : Q) (n_estimators : Z) (plot : bool) (random_state : Z)
  : result (MaskFrame K) :=
  let X := numeric_rows df in
  match isolation_forest
          (multivariable_kwargs contaminacion n_estimators random_state) X with
  | None =>
      Raise (fit_error (multivariable_kwargs contaminacion n_estimators random_state) X)
  | Some outliers =>
      let name := ("MULTIVARIABLE_ISO_FOREST_" ++ format_float contaminacion)%string in
      (* [df_anomaly[name] = outliers] checks the length *)
      if negb (List.length outliers =? List.length (index df))%nat then Raise ValueError
      else
        (* the two lookups inside the [print] call *)
        n_outliers <- counts_getitem (-1) (value_counts outliers) ;;
        pct_outliers <- counts_getitem (-1) (value_counts outliers) ;;
        if plot && negb (show_figure X outliers) then Raise RenderError
        else
          Ok {| mask_index := index df;
                mask_columns :=
                  [(name, map (fun x => Some (x =? -1)%Z) outliers)] |}
  end.
End IsolationForest.

(* ===================================================================== *)
(** ** Summary aggregator *)
(* ===================================================================== *)

(** The four columns of the summary table. *)
Inductive method : Type := IQR | STD | ISO_FOREST | GEN_ESD.

(** The [generalized_esd] dictionary argument of [summary]. *)
Record esd_config : Type := {
  max_anomalies : nat;
  alpha : Q;
  hybrid : bool
}.

(** [mask[col].mean()] as [DataFrame.mean()] computes it with its
    default [skipna=True]: missing cells are left out of the sum and of
    the count, [True] counts for one and [False] for zero; the mean of
    no cell at all is [nan] ([None]). *)
Definition column_mean (col : list cell) : option Q :=
  let present := flat_map (fun c => match c with Some b => [b] | None => [] end) col in
  match List.length present with
  | O => None
  | n => Some (Qlen (List.filter (fun b => b) present) / inject_Z (Z.of_nat n))
  end.

Section Summary.
Context {L : NumericLib} {M : ModelLib} {K : Type}.

(** The two cells of the summary for one column and one method. *)
Record entry : Type := {
  percentage : option Q;
  INDEX : list K
}.

(** [outliers.mean() * 100]: one percentage per column of the mask. *)
Definition percentage_outliers (outliers : MaskFrame K) : list (string * option Q) :=
  map (fun nc => (fst nc, option_map (fun m => m * 100) (column_mean (snd nc))))
      (mask_columns outliers).

(** [outliers[col][outliers[col] == True].index] *)
Definition flagged_keys (outliers : MaskFrame K) (col : string) : result (list K) :=
  c <- get_column col (mask_columns outliers) ;;
  Ok (flat_map (fun kc => match snd kc with
                          | Some true => [fst kc]
                          | _ => []
                          end) (combine (mask_index outliers) c)).

(** The two assignments of the final loop for one method. *)
Definition summary_entry (outliers : MaskFrame K) (col : string) : result entry :=
  pct <- get_column col (percentage_outliers outliers) ;;
  keys <- flagged_keys outliers col ;;
  Ok {| percentage := pct; INDEX := keys |}.

Fixpoint summary_loop (o_iqr o_sd o_iso o_esd : MaskFrame K)
    (cols : list (string * list Q)) : result (list (string * method * entry)) :=
  match cols with
  | [] => Ok []
  | (col, _) :: cols' =>
      e_iqr <- summary_entry o_iqr col ;;
      e_sd <- summary_entry o_sd col ;;
      e_iso <- summary_entry o_iso col ;;
      e_esd <- summary_entry o_esd col ;;
      rest <- summary_loop o_iqr o_sd o_iso o_esd cols' ;;
      Ok ((col, IQR, e_iqr) :: (col, STD, e_sd) :: (col, ISO_FOREST, e_iso)
            :: (col, GEN_ESD, e_esd) :: rest)
  end.

(** [summary(df, iqr_multiple, sd_multiple, isolation_outlier_fraction,
    generalized_esd)]. The styling call at its end builds a styler that
    is dropped, so the returned table is the one filled by the loop. *)
Definition summary (df : DataFrame K) (iqr_multiple sd_multiple : Q)
    (isolation_outlier_fraction : fraction) (generalized_esd : esd_config)
  : result (list (string * method * entry)) :=
  outliers_iqr <- detect_outlier_iqr df iqr_multiple ;;
  let outliers_sd := detect_outlier_sd df sd_multiple in
  outliers_isolation_forest <-
    detect_outlier_isolation_forest df isolation_outlier_fraction ∅ ;;
  outliers_generalized_esd <-
    detect_outlier_generalized_esd df (max_anomalies generalized_esd)
      (alpha generalized_esd) (hybrid generalized_esd) ;;
  summary_loop outliers_iqr outliers_sd outliers_isolation_forest
    outliers_generalized_esd (numeric_cols df).

(** The entry of the report for a column and a method. *)
Fixpoint report_lookup (col : string) (m : method)
    (report : list (string * method * entry)) : option entry :=
  match report with
  | [] => None
  | (c, m', e) :: report' =>
      if String.eqb col c
         && match m, m' with
            | IQR, IQR | STD, STD | ISO_FOREST, ISO_FOREST | GEN_ESD, GEN_ESD => true
            | _, _ => false
            end
      then Some e else report_lookup col m report'
  end.
End Summary.
Arguments entry K : clear implicits.

(* ===================================================================== *)
(** ** Bayesian optimizer ([bayesian_optimizer.py]) *)
(* ===================================================================== *)

(** A value of a point of the search space: the float that the optimizer
    suggests, or the int that [int(...)] makes of it. *)
Inductive pvalue : Type :=
| PFloat (q : Q)
| PInt (z : Z).

(** Python's [int(x)]: a float is truncated toward zero, an int is
    kept. *)
Definition py_int (v : pvalue) : Z :=
  match v with
  | PFloat q => if Qle_bool 0 q then Qfloor q else Qceiling q
  | PInt z => z
  end.

(** The collaborators of [ModelOptimizer.optimize_model].
    - [optimizer] is the state of the [BayesianOptimization] object and
      [new_optimizer pbounds] the object that the call creates.
    - [suggest] is [optimizer.suggest(utility)]: a point with one float
      per parameter, and the state of the optimizer after the call.
    - [register] is [optimizer.register(params, target)] inside the
      [try]: the state it leaves, and whether it raised.
    - [max_params] is [optimizer.max["params"]].
    - [objective] is [black_box_function] for the data and the model of
      the call: [model.set_params] with the point, then the mean of
      [cross_val_score]; it may raise. *)
Class OptimizerLib : Type := {
  optimizer : Type;
  new_optimizer : gmap string (Q * Q) -> optimizer;
  suggest : optimizer -> optimizer * gmap string Q;
  register : optimizer -> gmap string pvalue -> Q -> optimizer * bool;
  max_params : optimizer -> result (gmap string pvalue);
  objective : gmap string pvalue -> result Q
}.

(** [for int_param in int_params:
       next_point[int_param] = int(next_point[int_param])] *)
Fixpoint coerce_int_params (int_params : list string)
    (next_point : gmap string pvalue) : result (gmap string pvalue) :=
  match int_params with
  | [] => Ok next_point
  | int_param :: int_params' =>
      match next_point !! int_param with
      | None => Raise KeyError
      | Some v =>
          coerce_int_params int_params' (<[int_param := PInt (py_int v)]> next_point)
      end
  end.

Section Optimizer.
Context {Opt : OptimizerLib}.

(** The loop [for i in range(n_iter)] of [optimize_model]. Besides the
    optimizer it returns the calls of the objective, in order (the code
    keeps no such record; it is what the loop did). An exception of
    [register] is dropped by the bare [except]. *)
Fixpoint optimization_loop (n_iter : nat) (int_params : list string)
    (opt : optimizer)
  : result (optimizer * list (gmap string pvalue * Q)) :=
  match n_iter with
  | O => Ok (opt, [])
  | S n_iter' =>
      let suggestion := suggest opt in
      next_point <- coerce_int_params int_params (PFloat <$> snd suggestion) ;;
      target <- objective next_point ;;
      let registered := register (fst suggestion) next_point target in
      rest <- optimization_loop n_iter' int_params (fst registered) ;;
      Ok (fst rest, (next_point, target) :: snd rest)
  end.

(** [optimize_model(pbounds, X_train_scale, y_train, model, int_params,
    n_iter)] *)
Definition optimize_model (pbounds : gmap string (Q * Q))
    (int_params : list string) (n_iter : nat) : result (gmap string pvalue) :=
  run <- optimization_loop n_iter int_params (new_optimizer pbounds) ;;
  printed <- max_params (fst run) ;;
  max_params (fst run).
End Optimizer.

(* ===================================================================== *)
(** ** Specification-side notions *)
(* ===================================================================== *)

(** Population mean and standard deviation of a list of values, as the
    specification words them: the mean of the values, and the square root
    of the mean squared deviation (divisor [n], that is, [ddof = 0]). *)
Definition population_mean (l : list Q) : Q := Qsum l / Qlen l.

Definition population_variance (l : list Q) : Q :=
  Qsum (map (fun x => (x - population_mean l) ^ 2) l) / Qlen l.

Definition population_std {L : NumericLib} (l : list Q) : Q :=
  np_sqrt (population_variance l).

(** The laws of the square root that the statements below rely on: it is
    a function on rationals up to equality, it is never negative, and it
    vanishes at zero and only there. *)
Class NumericLaws (L : NumericLib) : Prop := {
  np_sqrt_proper : forall x y, x == y -> np_sqrt x == np_sqrt y;
  np_sqrt_nonneg : forall x, 0 <= np_sqrt x;
  np_sqrt_zero : np_sqrt 0 == 0;
  np_sqrt_zero_only : forall x, 0 <= x -> np_sqrt x == 0 -> x == 0
}.

(** The values of [outlier_fraction] that the specification accepts: the
    string "auto", or a number of the interval [0, 0.5]. *)
Definition valid_outlier_fraction (f : fraction) : Prop :=
  match f with
  | FracStr s => s = "auto"%string
  | FracNum q => 0 <= q /\ q <= 1 # 2
  end.

(** What scikit-learn (1.2 and later) does with a numeric
    [contamination] outside (0, 0.5]: [fit] validates the parameters of
    the estimator before it looks at the data, and rejects the value
    with [InvalidParameterError]. The law is stated for an estimator
    built from these two keywords alone, which the constructor
    accepts. *)
Class SklearnLaws (M : ModelLib) : Prop := {
  contamination_validated :
    forall (q : Q) (seed : Z) (X : list (list Q)),
      ~ (0 < q /\ q <= 1 # 2) ->
      isolation_forest
        (<["random_state" := KInt seed]> (<["contamination" := KNum q]> ∅)) X = None
      /\ fit_error
           (<["random_state" := KInt seed]> (<["contamination" := KNum q]> ∅)) X
         = InvalidParameterError
}.

(** The test of iteration [i] of a Generalized ESD run on the column
    [ts] passes: the run reaches that iteration, and there the test
    statistic exceeds the critical value. *)
Definition test_passes {L : NumericLib} (alpha : Q) (hybrid : bool)
    (ts : list Q) (i : nat) : Prop :=
  exists st stat critical_val,
    esd_loop alpha hybrid (seq 0 i) (esd_init ts) = Ok st
    /\ calculate_test_statistic (st_ts st) hybrid = Ok stat
    /\ calculate_critical_value
         (Z.of_nat (List.length (st_ts st)) - Z.of_nat i)%Z alpha = Ok critical_val
    /\ exceeds (snd stat) critical_val = true.

(** The number of rows flagged in a column of a mask. *)
Definition flagged_count (col : list cell) : nat :=
  List.length (List.filter (fun c => match c with Some true => true | _ => false end) col).

(** Every cell of a column is a boolean. *)
Definition all_boolean (col : list cell) : Prop :=
  Forall (fun c => c <> None) col.

(** The mask that a column of the summary table is filled from. *)
Definition method_mask {K : Type} (o_iqr o_sd o_iso o_esd : MaskFrame K)
    (m : method) : MaskFrame K :=
  match m with
  | IQR => o_iqr
  | STD => o_sd
  | ISO_FOREST => o_iso
  | GEN_ESD => o_esd
  end.

(** The number of missing cells in a column of a mask. *)
Definition missing_count (col : list cell) : nat :=
  List.length (List.filter (fun c => match c with None => true | _ => false end) col).

(** A mask that lines up with its frame: the row keys of the frame, one
    column for each numeric column, under the same name and in the same
    order, and one cell per row. *)
Definition mask_aligned {K : Type} (df : DataFrame K) (o : MaskFrame K) : Prop :=
  mask_index o = index df
  /\ map fst (mask_columns o) = map fst (numeric_cols df)
  /\ Forall (fun nc => List.length (snd nc) = List.length (index df)) (mask_columns o).

(** A mask without missing cells. *)
Definition mask_boolean {K : Type} (o : MaskFrame K) : Prop :=
  Forall (fun nc => all_boolean (snd nc)) (mask_columns o).

(* ===================================================================== *)
(** ** Concrete libraries for the examples *)
(* ===================================================================== *)

(** A square root on rationals, rounded up to six decimals. *)
Definition sqrt_up6 (x : Q) : Q :=
  if Qle_bool x 0 then 0
  else Qmake (Z.sqrt_up (Qceiling (x * inject_Z (10 ^ 12)))) (10 ^ 6).

(** Student-t quantiles [t.ppf(1 - 0.05 / (2 * size), size - 2)] for the
    sizes the examples meet, to three decimals; [nan] for non-positive
    degrees of freedom, as scipy answers. *)
Definition t_table : list (Z * Q * Q) :=
  [ (12%Z, 1 - (1 # 20) / (2 * 14), 3611 # 1000);
    (11%Z, 1 - (1 # 20) / (2 * 13), 3646 # 1000);
    (10%Z, 1 - (1 # 20) / (2 * 12), 3691 # 1000);
    (5%Z, 1 - (1 # 20) / (2 * 7), 4382 # 1000);
    (4%Z, 1 - (1 # 20) / (2 * 6), 4851 # 1000);
    (3%Z, 1 - (1 # 20) / (2 * 5), 5841 # 1000);
    (2%Z, 1 - (1 # 20) / (2 * 4), 8860 # 1000);
    (1%Z, 1 - (1 # 20) / (2 * 3), 38188 # 1000) ].

Definition t_ppf_table (p : Q) (df : Z) : option Q :=
  if (df <=? 0)%Z then None
  else
    match List.find (fun e => (fst (fst e) =? df)%Z && Qeqb (snd (fst e)) p) t_table with
    | Some e => Some (snd e)
    | None => None
    end.

Definition example_numeric : NumericLib :=
  {| np_sqrt := sqrt_up6; t_ppf := t_ppf_table |}.

(** The contamination that scikit-learn accepts: "auto" (also the
    default) or a number of (0, 0.5]. *)
Definition contamination_ok (kwargs : gmap string kwval) : bool :=
  match kwargs !! "contamination"%string with
  | Some (KNum q) => Qltb 0 q && Qle_bool q (1 # 2)
  | Some (KStr s) => String.eqb s "auto"
  | Some _ => false
  | None => true
  end.

(** A stand-in for the isolation forest: it rejects a contamination that
    scikit-learn rejects; otherwise it answers one label per row and
    marks the rows whose first coordinate lies more than two units from
    zero. The figure is never rendered. *)
Definition example_models : ModelLib :=
  {| isolation_forest := fun kwargs X =>
       if contamination_ok kwargs then
         Some (map (fun row => if Qltb 2 (Qabs (List.hd 0 row)) then (-1)%Z else 1%Z) X)
       else None;
     fit_error := fun _ _ => InvalidParameterError;
     show_figure := fun _ _ => true;
     format_float := fun _ => "0.01"%string |}.

(** The column of the specification's ESD example, and a column with two
    equal extreme values. *)
Definition esd_example : list Q := [10; 11; 9; 10; 11; 9; 1000].

Definition two_extremes : list Q :=
  [10; 11; 9; 10; 11; 9; 10; 11; 9; 10; 11; 9; 1000; 1000].

Definition frame_of (ts : list Q) : DataFrame nat :=
  {| index := seq 0 (List.length ts); columns := [("x"%string, Numeric ts)] |}.

(** A stand-in for the optimizer: its state counts the suggestions, each
    suggestion moves "degree" up by one half, and every registration
    raises. *)
Definition example_optimizer : OptimizerLib :=
  {| optimizer := nat;
     new_optimizer := fun _ => 0%nat;
     suggest := fun n =>
       (S n, <["degree"%string := inject_Z (Z.of_nat n) / 2 + (3 # 2)]>
               (<["C"%string := 1 # 3]> ∅));
     register := fun n _ _ => (n, true);
     max_params := fun _ => Raise KeyError;
     objective := fun _ => Ok 1 |}.

Definition example_point (degree : Z) : gmap string pvalue :=
  <["degree"%string := PInt degree]> (<["C"%string := PFloat (1 # 3)]> ∅).

(* ===================================================================== *)
(** * Properties *)
(* ===================================================================== *)

(** ** Boolean comparisons and sums *)

Lemma Qltb_lt (x y : Q) : Qltb x y = true <-> x < y.
Proof.
  unfold Qltb. rewrite negb_true_iff, <- not_true_iff_false, Qle_bool_iff.
  split; [apply Qnot_le_lt | apply Qlt_not_le].
Qed.

Lemma Qltb_ge (x y : Q) : Qltb x y = false <-> y <= x.
Proof.
  unfold Qltb. rewrite negb_false_iff. apply Qle_bool_iff.
Qed.

Lemma Qeqb_eq (x y : Q) : Qeqb x y = true <-> x == y.
Proof. apply Qeq_bool_iff. Qed.


Lemma Qsq_nonneg (d : Q) : 0 <= d * d.
Proof. nra. Qed.

Lemma Qsq_zero (d : Q) : d * d == 0 -> d == 0.
Proof. nra. Qed.

Lemma Qsum_nonneg (l : list Q) :
  Forall (fun x => 0 <= x) l -> 0 <= Qsum l.
Proof.
  induction 1 as [|x l Hx _ IH]; simpl; [apply Qle_refl | lra].
Qed.

Lemma Qsum_zero_terms (l : list Q) :
  Forall (fun x => 0 <= x) l -> Qsum l == 0 -> Forall (fun x => x == 0) l.
Proof.
  induction 1 as [|x l Hx Hl IH]; simpl; intros Hs; constructor.
  - pose proof (Qsum_nonneg l Hl). lra.
  - apply IH. pose proof (Qsum_nonneg l Hl). lra.
Qed.

Lemma Qlen_pos {A : Type} (l : list A) : l <> [] -> 0 < Qlen l.
Proof.
  destruct l as [|a l]; [congruence|]. intros _. unfold Qlen.
  replace 0 with (inject_Z 0) by reflexivity. rewrite <- Zlt_Qlt.
  simpl List.length. lia.
Qed.

(** ** Frames and column lookup *)

Lemma get_column_In {A : Type} (name : string) (v : A) (cols : list (string * A)) :
  NoDup (map fst cols) -> In (name, v) cols -> get_column name cols = Ok v.
Proof.
  induction cols as [|[n w] cols IH]; simpl; intros Hnd Hin; [contradiction|].
  inversion Hnd as [|? ? Hnotin Hnd']; subst.
  destruct Hin as [Heq | Hin].
  - inversion Heq; subst. now rewrite String.eqb_refl.
  - destruct (String.eqb name n) eqn:E.
    + apply String.eqb_eq in E. subst. exfalso. apply Hnotin.
      apply list_elem_of_In. apply in_map_iff. now exists (n, v).
    + now apply IH.
Qed.

Lemma numeric_cols_In {K : Type} (df : DataFrame K) (name : string) (ts : list Q) :
  In (name, Numeric ts) (columns df) <-> In (name, ts) (numeric_cols df).
Proof.
  unfold numeric_cols. rewrite in_flat_map. split.
  - intros Hin. exists (name, Numeric ts). split; [assumption | now left].
  - intros [[n c] [Hin Hc]]. destruct c as [v | v]; simpl in Hc; [|contradiction].
    destruct Hc as [Hc | []]. now inversion Hc; subst.
Qed.

Lemma numeric_names_incl (cols : list (string * column)) (name : string) :
  In name (map fst (flat_map (fun nc => match snd nc with
                                        | Numeric v => [(fst nc, v)]
                                        | Object _ => []
                                        end) cols)) ->
  In name (map fst cols).
Proof.
  induction cols as [|[n c] cols IH]; simpl; [tauto|].
  destruct c; simpl; intuition.
Qed.

Lemma numeric_cols_NoDup {K : Type} (df : DataFrame K) :
  NoDup (map fst (columns df)) -> NoDup (map fst (numeric_cols df)).
Proof.
  unfold numeric_cols. induction (columns df) as [|[n c] cols IH]; simpl; intros Hnd.
  - constructor.
  - inversion Hnd as [|? ? Hnotin Hnd']; subst. destruct c; simpl.
    + constructor; [|now apply IH]. intros Hin. apply Hnotin.
      apply list_elem_of_In. apply numeric_names_incl. now apply list_elem_of_In.
    + now apply IH.
Qed.

Lemma column_wise_get {K : Type} (body : list Q -> list cell) (df : DataFrame K)
    (name : string) (ts : list Q) :
  wf_frame df -> In (name, Numeric ts) (columns df) ->
  get_column name (mask_columns (column_wise body df)) = Ok (body ts).
Proof.
  intros [_ Hnd] Hin. unfold column_wise; simpl. apply get_column_In.
  - rewrite map_map. simpl. now apply numeric_cols_NoDup.
  - apply in_map_iff. exists (name, ts). split; [reflexivity|].
    now apply numeric_cols_In.
Qed.

(** ** The example libraries satisfy the laws *)

Lemma sqrt_up6_proper (x y : Q) : x == y -> sqrt_up6 x == sqrt_up6 y.
Proof.
  intros Hxy. unfold sqrt_up6.
  assert (Qle_bool x 0 = Qle_bool y 0) as ->.
  { apply eq_true_iff_eq. rewrite !Qle_bool_iff. now rewrite Hxy. }
  destruct (Qle_bool y 0); [reflexivity|]. now rewrite Hxy.
Qed.

Lemma sqrt_up6_nonneg (x : Q) : 0 <= sqrt_up6 x.
Proof.
  unfold sqrt_up6. destruct (Qle_bool x 0); [apply Qle_refl|].
  unfold Qle; simpl. rewrite Z.mul_1_r. apply Z.sqrt_up_nonneg.
Qed.

Lemma sqrt_up6_zero_only (x : Q) : 0 <= x -> sqrt_up6 x == 0 -> x == 0.
Proof.
  intros Hx. unfold sqrt_up6. destruct (Qle_bool x 0) eqn:E.
  - intros _. apply Qle_bool_iff in E. now apply Qle_antisym.
  - intros Hz. exfalso.
    assert (Hpos : 0 < x).
    { apply Qnot_le_lt. intros Hle. apply Qle_bool_iff in Hle. congruence. }
    unfold Qeq in Hz; simpl in Hz. rewrite Z.mul_1_r in Hz.
    assert (Hc : (Qceiling (x * inject_Z (10 ^ 12)) <= 0)%Z).
    { apply Z.nlt_ge. intros Hlt. apply Z.sqrt_up_pos in Hlt. lia. }
    pose proof (Qle_ceiling (x * inject_Z (10 ^ 12))) as Hle.
    assert (Hc' : inject_Z (Qceiling (x * inject_Z (10 ^ 12))) <= 0).
    { replace 0 with (inject_Z 0) by reflexivity. now rewrite <- Zle_Qle. }
    assert (Hk : 0 < inject_Z (10 ^ 12)) by reflexivity.
    assert (0 < x * inject_Z (10 ^ 12)) by (apply Qmult_lt_0_compat; assumption).
    lra.
Qed.

#[export] Instance example_numeric_laws : NumericLaws example_numeric.
Proof.
  split.
  - exact sqrt_up6_proper.
  - exact sqrt_up6_nonneg.
  - reflexivity.
  - exact sqrt_up6_zero_only.
Qed.

#[export] Instance example_models_laws : SklearnLaws example_models.
Proof.
  split. intros q seed X Hinv. split; [|reflexivity].
  cbn [isolation_forest example_models]. unfold contamination_ok.
  rewrite lookup_insert_ne by discriminate. rewrite lookup_insert_eq.
  destruct (Qltb 0 q) eqn:E0; [|reflexivity].
  destruct (Qle_bool q (1 # 2)) eqn:E1; [|reflexivity].
  exfalso. apply Hinv. split; [now apply Qltb_lt | now apply Qle_bool_iff].
Qed.

(** ** C5: the SD detector on a column of equal values *)

Section SdFloat64.
#[local] Open Scope float_scope.

(** *** Zeros and [nan] under the float64 operations *)

Lemma vanishing_add (x y : float) : vanishing x -> vanishing y -> vanishing (x + y).
Proof.
  unfold vanishing. rewrite FloatAxioms.add_spec.
  destruct (Prim2SF x) as [sx| | |], (Prim2SF y) as [sy| | |]; try tauto.
  intros _ _. unfold SF64add, SFadd. now destruct sx, sy.
Qed.

Lemma vanishing_mul_r (k x : float) : vanishing x -> vanishing (k * x).
Proof.
  unfold vanishing. rewrite FloatAxioms.mul_spec.
  destruct (Prim2SF x) as [sx| | |]; try tauto; intros _;
    destruct (Prim2SF k); exact I.
Qed.

Lemma vanishing_div (x y : float) : vanishing x -> vanishing (x / y).
Proof.
  unfold vanishing. rewrite FloatAxioms.div_spec.
  destruct (Prim2SF x) as [sx| | |]; try tauto; intros _;
    destruct (Prim2SF y); exact I.
Qed.

Lemma vanishing_sqrt (x : float) : vanishing x -> vanishing (PrimFloat.sqrt x).
Proof.
  unfold vanishing. rewrite FloatAxioms.sqrt_spec.
  destruct (Prim2SF x) as [sx| | |]; try tauto; intros _; exact I.
Qed.

Lemma SFcompare_Eq_finite (s1 s2 : bool) (m1 m2 : positive) (e1 e2 : Z) :
  SFcompare (S754_finite s1 m1 e1) (S754_finite s2 m2 e2) = Some Eq ->
  s1 = s2 /\ m1 = m2 /\ e1 = e2.
Proof.
  unfold SFcompare. destruct s1, s2; try discriminate;
    destruct (Z.compare e1 e2) eqn:Ee; try discriminate;
    apply Z.compare_eq in Ee; intros Hm; injection Hm as Hm.
  - destruct (Pos.compare_cont Eq m1 m2) eqn:Em; try discriminate.
    apply Pos.compare_eq in Em. auto.
  - apply Pos.compare_eq in Hm. auto.
Qed.

Lemma vanishing_sub_eq (x m : float) : (x =? m) = true -> vanishing (x - m).
Proof.
  unfold vanishing. rewrite FloatAxioms.eqb_spec, FloatAxioms.sub_spec. unfold SFeqb.
  destruct (SFcompare (Prim2SF x) (Prim2SF m)) as [[| |]|] eqn:Ec; try discriminate.
  intros _.
  destruct (Prim2SF x) as [sx|sx| |sx mx ex], (Prim2SF m) as [sm|sm| |sm mm em];
    try discriminate;
    try (destruct sx; discriminate); try (destruct sm; discriminate).
  - unfold SF64sub, SFsub. now destruct sx, sm.
  - unfold SF64sub, SFsub. destruct sx, sm; try discriminate; exact I.
  - apply SFcompare_Eq_finite in Ec. destruct Ec as (-> & -> & ->).
    assert (Hdiag : forall z, IntDef.Z.sub z z = 0%Z) by (intros z; apply Z.sub_diag).
    unfold SF64sub, SFsub, shl_align. rewrite Z.min_id, !Hdiag.
    exact I.
Qed.

Lemma SFcompare_refl_finite (s : bool) (m : positive) (e : Z) :
  SFcompare (S754_finite s m e) (S754_finite s m e) = Some Eq.
Proof.
  unfold SFcompare. destruct s; rewrite Z.compare_refl;
    change (Pos.compare_cont Eq m m) with (Pos.compare m m);
    now rewrite Pos.compare_refl.
Qed.

Lemma bounds_of_vanishing (x m d : float) :
  (x =? m) = true -> vanishing d ->
  ((m + d) <? x) = false /\ (x <? (m - d)) = false.
Proof.
  unfold vanishing.
  rewrite FloatAxioms.eqb_spec, !FloatAxioms.ltb_spec, FloatAxioms.add_spec,
    FloatAxioms.sub_spec.
  unfold SFeqb, SFltb.
  destruct (SFcompare (Prim2SF x) (Prim2SF m)) as [[| |]|] eqn:Ec; try discriminate.
  intros _.
  destruct (Prim2SF d) as [sd| | |]; try tauto; intros _.
  - destruct (Prim2SF x) as [sx|sx| |sx mx ex], (Prim2SF m) as [sm|sm| |sm mm em];
      try discriminate;
      try (destruct sx; discriminate); try (destruct sm; discriminate).
    + unfold SF64add, SF64sub, SFadd, SFsub. destruct sm, sd; split; reflexivity.
    + destruct sx, sm; try discriminate; split; reflexivity.
    + apply SFcompare_Eq_finite in Ec. destruct Ec as (-> & -> & ->).
      unfold SF64add, SF64sub, SFadd, SFsub.
      rewrite SFcompare_refl_finite. split; reflexivity.
  - destruct (Prim2SF x) as [sx|sx| |sx mx ex], (Prim2SF m) as [sm|sm| |sm mm em];
      try discriminate; split; reflexivity.
Qed.


Lemma vanishing_neg_zero : vanishing (-0).
Proof. vm_compute. exact I. Qed.

Lemma vanishing_sum_loop (res : float) (a : list float) :
  vanishing res -> Forall vanishing a -> vanishing (sum_loop res a).
Proof.
  unfold sum_loop. intros Hres Ha. revert res Hres.
  induction Ha as [|x a Hx _ IH]; intros res Hres; simpl; [assumption|].
  apply IH. now apply vanishing_add.
Qed.

Lemma vanishing_add_lanes (r chunk : list float) :
  Forall vanishing r -> Forall vanishing chunk -> Forall vanishing (add_lanes r chunk).
Proof.
  intros Hr. revert chunk. induction Hr as [|x r Hx Hr IH]; intros chunk Hc; simpl.
  - constructor.
  - destruct Hc as [|y chunk Hy Hc]; [now constructor|].
    constructor; [now apply vanishing_add | now apply IH].
Qed.

Lemma vanishing_lanes_loop (chunks : nat) (r a : list float) :
  Forall vanishing r -> Forall vanishing a ->
  Forall vanishing (fst (lanes_loop chunks r a))
  /\ Forall vanishing (snd (lanes_loop chunks r a)).
Proof.
  revert r a. induction chunks as [|chunks IH]; intros r a Hr Ha; simpl.
  - now split.
  - apply IH; [apply vanishing_add_lanes; [assumption | now apply Forall_take]
              | now apply Forall_drop].
Qed.

Lemma vanishing_pairwise_block (a : list float) :
  Forall vanishing a -> vanishing (pairwise_block a).
Proof.
  intros Ha. unfold pairwise_block.
  destruct (vanishing_lanes_loop (List.length a / 8 - 1) (firstn 8 a) (skipn 8 a))
    as [Hr Hrest]; [now apply Forall_take | now apply Forall_drop |].
  destruct (lanes_loop _ _ _) as [r rest]. simpl in Hr, Hrest.
  pose proof vanishing_neg_zero as Hz.
  do 8 (destruct r as [|? r]; [now apply vanishing_sum_loop|]).
  destruct r as [|? r]; [|now apply vanishing_sum_loop].
  apply vanishing_sum_loop; [|assumption].
  repeat match goal with H : Forall vanishing (_ :: _) |- _ =>
    apply Forall_cons_1 in H; destruct H end.
  repeat apply vanishing_add; assumption.
Qed.

Lemma vanishing_pairwise_sum (depth : nat) (a : list float) :
  Forall vanishing a -> vanishing (pairwise_sum depth a).
Proof.
  revert a. induction depth as [|depth IH]; intros a Ha; simpl.
  - destruct (_ <? 8)%nat; [apply vanishing_sum_loop;
                             [apply vanishing_neg_zero | assumption]|].
    destruct (_ <=? 128)%nat; now apply vanishing_pairwise_block.
  - destruct (_ <? 8)%nat; [apply vanishing_sum_loop;
                             [apply vanishing_neg_zero | assumption]|].
    destruct (_ <=? 128)%nat; [now apply vanishing_pairwise_block|].
    apply vanishing_add; apply IH; [now apply Forall_take | now apply Forall_drop].
Qed.

Lemma vanishing_std_of_exact_mean (ts : list float) :
  Forall (fun x => (x =? nd_mean64 ts) = true) ts -> vanishing (nd_std64 ts).
Proof.
  intros Hall. unfold nd_std64, nd_var64.
  apply vanishing_sqrt, vanishing_div. unfold np_sum64.
  apply vanishing_pairwise_sum. rewrite map_map. apply List.Forall_map.
  eapply List.Forall_impl; [|exact Hall].
  intros x Hx. cbv beta. apply vanishing_mul_r. now apply vanishing_sub_eq.
Qed.

Lemma pairwise_sum_unfold (depth : nat) (a : list float) :
  pairwise_sum depth a
  = if (List.length a <? 8)%nat then sum_loop (-0) a
    else if (List.length a <=? 128)%nat then pairwise_block a
    else match depth with
         | O => pairwise_block a
         | S depth' =>
             pairwise_sum depth'
               (firstn (List.length a / 2 - (List.length a / 2) mod 8) a)
             + pairwise_sum depth'
                 (skipn (List.length a / 2 - (List.length a / 2) mod 8) a)
         end.
Proof. destruct depth; reflexivity. Qed.

(** The depth given to the pairwise summation is enough: the result
    does not depend on it once it reaches the length of the array. *)
Lemma pairwise_sum_depth (d1 d2 : nat) (a : list float) :
  (List.length a <= d1)%nat -> (List.length a <= d2)%nat ->
  pairwise_sum d1 a = pairwise_sum d2 a.
Proof.
  revert d2 a. induction d1 as [|d1 IH]; intros d2 a H1 H2;
    rewrite (pairwise_sum_unfold _ a), (pairwise_sum_unfold d2 a);
    destruct (List.length a <? 8)%nat eqn:E8; try reflexivity;
    destruct (List.length a <=? 128)%nat eqn:Eb; try reflexivity;
    apply Nat.leb_gt in Eb.
  - lia.
  - destruct d2 as [|d2]; [lia|].
    assert (Hhalf : (64 <= List.length a / 2)%nat)
      by (apply Nat.div_le_lower_bound; lia).
    assert (Hmod : ((List.length a / 2) mod 8 < 8)%nat)
      by (apply Nat.mod_upper_bound; lia).
    assert (Hlt : (List.length a / 2 < List.length a)%nat)
      by (apply Nat.div_lt; lia).
    f_equal; apply IH; rewrite ?length_firstn, ?length_skipn; lia.
Qed.

(** C5 (as amended). For every float64 column whose values all equal
    the mean that numpy computes for it (the values are then all equal,
    and the computed deviation is zero or [nan]), the SD detector, whose
    column body cannot raise, returns the mask that is false on every
    row, whatever the multiple. *)
Theorem sd64_exact_mean_all_false (sd_multiple : float) (ts : list float) :
  Forall (fun x => (x =? nd_mean64 ts) = true) ts ->
  sd_mask64 sd_multiple ts = map (fun _ => false) ts.
Proof.
  intros Hall. pose proof (vanishing_std_of_exact_mean ts Hall) as Hstd.
  unfold sd_mask64. apply map_ext_Forall.
  eapply List.Forall_impl; [|exact Hall].
  intros x Hx. cbv beta.
  destruct (bounds_of_vanishing x (nd_mean64 ts) (sd_multiple * nd_std64 ts) Hx)
    as [Hhi Hlo]; [now apply vanishing_mul_r|].
  now rewrite Hhi, Hlo.
Qed.

Lemma sd64_exact_mean_all_false_witness :
  sd_mask64 3 [0.5; 0.5; 0.5; 0.5] = map (fun _ => false) [0.5; 0.5; 0.5; 0.5].
Proof.
  apply (sd64_exact_mean_all_false 3 [0.5; 0.5; 0.5; 0.5]).
  repeat constructor.
Defined.

(** C5 (as stated) fails: the three values of the column
    [0.1, 0.1, 0.1] are equal, yet their float64 mean is one unit in the
    last place above them, and with the multiple 0.25 the lower bound
    rounds to that mean: every row is flagged. *)
Lemma sd64_constant_column_counterexample :
  Forall (fun x => x = one_tenth) [one_tenth; one_tenth; one_tenth]
  /\ sd_mask64 0.25 [one_tenth; one_tenth; one_tenth] = [true; true; true].
Proof.
  split; [repeat constructor | vm_compute; reflexivity].
Qed.
End SdFloat64.

(** ** C6: the IQR detector on the column 1, 2, 3, 4, 100 *)

(** C6. On the single-column dataset [1, 2, 3, 4, 100] with
    [iqr_multiple = 1.5], linear interpolation gives the quartiles
    Q1 = 2 and Q3 = 4, and the IQR detector returns the mask that is true
    on the row of 100 and false on the four other rows. *)
Theorem iqr_example_flags_only_100 :
  (exists q1 q3,
      np_quantile [1; 2; 3; 4; 100] (1 # 4) = Ok q1 /\ q1 == 2 /\
      np_quantile [1; 2; 3; 4; 100] (3 # 4) = Ok q3 /\ q3 == 4)
  /\ detect_outlier_iqr (frame_of [1; 2; 3; 4; 100]) (3 # 2)
     = Ok {| mask_index := [0; 1; 2; 3; 4]%nat;
             mask_columns :=
               [("x"%string,
                 [Some false; Some false; Some false; Some false; Some true])] |}.
Proof.
  split.
  - eexists; eexists. repeat split; reflexivity.
  - reflexivity.
Qed.

(** ** C7: validation of [outlier_fraction] *)

Section IsolationForestProperties.
Context {L : NumericLib} {K : Type}.

Lemma check_outlier_fraction_valid (f : fraction) :
  valid_outlier_fraction f -> check_outlier_fraction f = Ok tt.
Proof.
  destruct f as [s | q]; simpl.
  - intros ->. reflexivity.
  - intros [H0 H1]. apply Qle_bool_iff in H0, H1. now rewrite H0, H1.
Qed.

Lemma check_outlier_fraction_invalid (f : fraction) :
  ~ valid_outlier_fraction f ->
  exists msg, check_outlier_fraction f = Raise (AssertionError msg).
Proof.
  destruct f as [s | q]; simpl; intros Hinv.
  - destruct (String.eqb s "auto") eqn:E.
    + apply String.eqb_eq in E. contradiction.
    + eexists. reflexivity.
  - destruct (Qle_bool 0 q) eqn:E0; destruct (Qle_bool q (1 # 2)) eqn:E1;
      simpl; try (eexists; reflexivity).
    apply Qle_bool_iff in E0, E1. tauto.
Qed.

(** For an invalid [outlier_fraction] the call fails with the assertion
    error of the failing [assert], whatever the dataset and the model
    library: no column is scaled and no model is built. *)
Lemma isolation_forest_assertion (df : DataFrame K) (f : fraction)
    (kwargs : gmap string kwval) :
  ~ valid_outlier_fraction f ->
  exists msg, forall M : ModelLib,
    detect_outlier_isolation_forest df f kwargs = Raise (AssertionError msg).
Proof.
  intros Hinv. destruct (check_outlier_fraction_invalid f Hinv) as [msg Hmsg].
  exists msg. intros M. unfold detect_outlier_isolation_forest.
  now rewrite Hmsg.
Qed.

(** C7 (at the failing input). The fraction 0 lies in the interval
    [0, 0.5] that the docstring and the assertion of the detector
    announce, and the assertion lets it through; the first numeric
    column is then scaled, and the model built with [contamination = 0]
    is rejected by the parameter validation of scikit-learn: the call
    fails with [InvalidParameterError], where the claim promises that no
    validation error is raised. *)
Theorem isolation_forest_zero_fraction_rejected {M : ModelLib}
    {Laws : SklearnLaws M} (df : DataFrame K) (q : Q) (name : string)
    (ts : list Q) (cols : list (string * list Q)) :
  q == 0 ->
  numeric_cols df = (name, ts) :: cols ->
  ts <> [] ->
  valid_outlier_fraction (FracNum q)
  /\ check_outlier_fraction (FracNum q) = Ok tt
  /\ detect_outlier_isolation_forest df (FracNum q) ∅ = Raise InvalidParameterError.
Proof.
  intros Hq Hcols Hne.
  assert (Hval : valid_outlier_fraction (FracNum q)) by (simpl; lra).
  pose proof (check_outlier_fraction_valid _ Hval) as Hcheck.
  repeat split; try assumption; try (simpl in Hval; tauto).
  unfold detect_outlier_isolation_forest. rewrite Hcheck, Hcols. cbn [bind].
  cbn [isolation_forest_loop]. unfold isolation_forest_column, standard_scale.
  destruct ts as [|x ts]; [congruence|]. cbn [bind kw_of_fraction].
  destruct (contamination_validated q 42
              (map (fun v => [(v - nd_mean (x :: ts))
                              / (if Qeqb (nd_var 0 (x :: ts)) 0 then 1
                                 else np_sqrt (nd_var 0 (x :: ts)))])
                   (x :: ts))) as [Hnone Herr]; [lra|].
  rewrite Hnone, Herr. reflexivity.
Qed.

(** ** C8: the overwritten keyword arguments *)

Lemma overwritten_kwargs_agree (f : fraction) (kw1 kw2 : gmap string kwval) :
  (forall k : string,
      k <> "contamination"%string -> k <> "random_state"%string ->
      kw1 !! k = kw2 !! k) ->
  <["random_state":=KInt 42]> (<["contamination":=kw_of_fraction f]> kw1)
  = <["random_state":=KInt 42]> (<["contamination":=kw_of_fraction f]> kw2).
Proof.
  intros Hagree. apply map_eq. intros k.
  destruct (decide (k = "random_state"%string)) as [-> | Hrs].
  - now rewrite !lookup_insert_eq.
  - rewrite !(lookup_insert_ne _ "random_state"%string k) by congruence.
    destruct (decide (k = "contamination"%string)) as [-> | Hc].
    + now rewrite !lookup_insert_eq.
    + rewrite !(lookup_insert_ne _ "contamination"%string k) by congruence.
      now apply Hagree.
Qed.

(** C8. Two calls of the univariate isolation-forest detector on the
    same dataset and [outlier_fraction], whose keyword arguments differ
    only in the entries "contamination" and "random_state", return the
    same result: both entries are overwritten (with [outlier_fraction]
    and with 42) before the model is built. *)
Theorem isolation_forest_ignores_overwritten_kwargs {M : ModelLib}
    (df : DataFrame K) (f : fraction) (kw1 kw2 : gmap string kwval) :
  (forall k : string,
      k <> "contamination"%string -> k <> "random_state"%string ->
      kw1 !! k = kw2 !! k) ->
  detect_outlier_isolation_forest df f kw1
  = detect_outlier_isolation_forest df f kw2.
Proof.
  intros Hagree. unfold detect_outlier_isolation_forest.
  destruct (check_outlier_fraction f) as [[] | e]; simpl; [|reflexivity].
  destruct (numeric_cols df) as [|[name ts] cols]; simpl; [reflexivity|].
  unfold isolation_forest_column.
  now rewrite (overwritten_kwargs_agree f kw1 kw2 Hagree).
Qed.
End IsolationForestProperties.

Lemma isolation_forest_zero_fraction_rejected_witness :
  valid_outlier_fraction (FracNum 0)
  /\ check_outlier_fraction (FracNum 0) = Ok tt
  /\ detect_outlier_isolation_forest (L := example_numeric) (M := example_models)
       (frame_of [1; 2; 3]) (FracNum 0) ∅
     = Raise InvalidParameterError.
Proof.
  apply (isolation_forest_zero_fraction_rejected (L := example_numeric)
           (M := example_models) (frame_of [1; 2; 3]) 0 "x" [1; 2; 3] []).
  - reflexivity.
  - reflexivity.
  - discriminate.
Defined.

Lemma isolation_forest_ignores_overwritten_kwargs_witness :
  detect_outlier_isolation_forest (L := example_numeric) (M := example_models)
    (frame_of esd_example) (FracNum (1 # 10))
    (<["contamination":=KNum (2 # 5)]> (<["n_estimators":=KInt 50]> ∅))
  = detect_outlier_isolation_forest (L := example_numeric) (M := example_models)
      (frame_of esd_example) (FracNum (1 # 10))
      (<["random_state":=KInt 7]> (<["n_estimators":=KInt 50]> ∅)).
Proof.
  apply (isolation_forest_ignores_overwritten_kwargs (L := example_numeric)
           (M := example_models)).
  intros k Hc Hr.
  rewrite (lookup_insert_ne _ "contamination"%string k) by congruence.
  rewrite (lookup_insert_ne _ "random_state"%string k) by congruence.
  reflexivity.
Defined.

(** ** C9: the multivariate detector and the count of outliers *)

Lemma counts_getitem_count_label (label l : Z) (counts : list (Z * nat)) :
  counts_getitem label (count_label l counts)
  = if (l =? label)%Z
    then Ok (match counts_getitem label counts with
             | Ok c => S c
             | Raise _ => 1%nat
             end)
    else counts_getitem label counts.
Proof.
  induction counts as [|[l' c] counts IH]; simpl.
  - destruct (l =? label)%Z; reflexivity.
  - destruct (l' =? l)%Z eqn:E; simpl.
    + apply Z.eqb_eq in E. subst l'. destruct (l =? label)%Z; reflexivity.
    + destruct (l' =? label)%Z eqn:E'; simpl.
      * apply Z.eqb_eq in E'. subst l'. rewrite Z.eqb_sym in E. now rewrite E.
      * exact IH.
Qed.

Lemma counts_getitem_fold_absent (label : Z) (labels : list Z) (counts : list (Z * nat)) :
  ~ In label labels ->
  counts_getitem label (fold_left (fun cs l => count_label l cs) labels counts)
  = counts_getitem label counts.
Proof.
  revert counts. induction labels as [|l labels IH]; intros counts Hnot; simpl;
    [reflexivity|].
  rewrite IH by (intros Hin; apply Hnot; now right).
  rewrite counts_getitem_count_label.
  destruct (l =? label)%Z eqn:E; [|reflexivity].
  apply Z.eqb_eq in E. exfalso. apply Hnot. now left.
Qed.

Lemma counts_getitem_fold_present (label : Z) (labels : list Z) (counts : list (Z * nat)) :
  (exists c, counts_getitem label
               (fold_left (fun cs l => count_label l cs) labels counts) = Ok c) ->
  In label labels \/ exists c, counts_getitem label counts = Ok c.
Proof.
  revert counts. induction labels as [|l labels IH]; intros counts Hok; simpl in *.
  - now right.
  - destruct (IH _ Hok) as [Hin | [c Hc]]; [left; now right|].
    rewrite counts_getitem_count_label in Hc.
    destruct (l =? label)%Z eqn:E.
    + apply Z.eqb_eq in E. left; now left.
    + right. now exists c.
Qed.

(** C9. The multivariate isolation-forest detector returns a mask only if
    the predictions of the fitted model contain the outlier label [-1];
    when the model answers one label per row and none of them is [-1],
    the lookup of the outlier count raises [KeyError] and no mask is
    returned. *)
Theorem multivariable_requires_an_outlier {M : ModelLib} {K : Type}
    (df : DataFrame K) (contaminacion : Q) (n_estimators : Z) (plot : bool)
    (random_state : Z) :
  (forall m,
      detect_outlier_multivariable_isolation_forest df contaminacion
        n_estimators plot random_state = Ok m ->
      exists outliers,
        isolation_forest
          (multivariable_kwargs contaminacion n_estimators random_state)
          (numeric_rows df) = Some outliers
        /\ In (-1)%Z outliers)
  /\ (forall outliers,
         isolation_forest
           (multivariable_kwargs contaminacion n_estimators random_state)
           (numeric_rows df) = Some outliers ->
         List.length outliers = List.length (index df) ->
         ~ In (-1)%Z outliers ->
         detect_outlier_multivariable_isolation_forest df contaminacion
           n_estimators plot random_state = Raise KeyError).
Proof.
  unfold detect_outlier_multivariable_isolation_forest. split.
  - intros m Hm. destruct (isolation_forest _ _) as [outliers|]; [|discriminate].
    exists outliers. split; [reflexivity|].
    destruct (negb _); [discriminate|].
    destruct (counts_getitem (-1) (value_counts outliers)) as [c|e] eqn:Ec;
      [|discriminate].
    destruct (counts_getitem_fold_present (-1) outliers [])
      as [Hin | [c' Hc']]; [now exists c | assumption | discriminate].
  - intros outliers -> Hlen Hnot. rewrite Hlen, Nat.eqb_refl. simpl.
    unfold value_counts. now rewrite counts_getitem_fold_absent.
Qed.

Lemma multivariable_requires_an_outlier_witness :
  detect_outlier_multivariable_isolation_forest (M := example_models)
    (frame_of [1; 1; 1]) (1 # 100) 500 true 42 = Raise KeyError.
Proof.
  apply (proj2 (multivariable_requires_an_outlier (M := example_models)
                  (frame_of [1; 1; 1]) (1 # 100) 500 true 42) [1; 1; 1]%Z).
  - reflexivity.
  - reflexivity.
  - simpl. intros [Hc | [Hc | [Hc | []]]]; discriminate.
Defined.

(** ** Masked arrays: lengths, sums and [argmax] *)

Lemma ma_sub_scalar_length (a : marray) (s : option Q) :
  List.length (ma_sub_scalar a s) = List.length a.
Proof. unfold ma_sub_scalar. destruct s; apply length_map. Qed.

Lemma ma_div_scalar_length (a : marray) (s : option Q) :
  List.length (ma_div_scalar a s) = List.length a.
Proof.
  unfold ma_div_scalar. destruct s as [d|]; [destruct (Qeqb d 0)|]; apply length_map.
Qed.

Lemma ma_abs_length (a : marray) : List.length (ma_abs a) = List.length a.
Proof. apply length_map. Qed.

Lemma ma_count_compressed (a : marray) :
  ma_count a = List.length (ma_compressed a).
Proof.
  unfold ma_count, ma_compressed.
  induction a as [|[x|] a IH]; simpl; [reflexivity | now rewrite IH | exact IH].
Qed.

Lemma ma_sum_map_compressed (f : Q -> Q) (a : marray) :
  ma_sum (map (option_map f) a) == Qsum (map f (ma_compressed a)).
Proof.
  unfold ma_sum, ma_filled, ma_compressed.
  induction a as [|[x|] a IH]; simpl.
  - reflexivity.
  - now rewrite IH.
  - rewrite IH. lra.
Qed.

Lemma ma_sum_compressed (a : marray) : ma_sum a == Qsum (ma_compressed a).
Proof.
  rewrite <- (map_id (ma_compressed a)).
  rewrite <- (ma_sum_map_compressed (fun x => x) a).
  replace (map (option_map (fun x : Q => x)) a) with a; [reflexivity|].
  induction a as [|[x|] a IH]; simpl; congruence.
Qed.

Lemma score_ltb_irrefl (a : option Q) : score_ltb a a = false.
Proof.
  destruct a as [x|]; simpl; [|reflexivity]. apply Qltb_ge, Qle_refl.
Qed.

Lemma score_ltb_raise (best x y : option Q) :
  score_ltb best x = true -> score_ltb best y = false -> score_ltb x y = false.
Proof.
  destruct best as [b|], x as [x|], y as [y|]; simpl; try congruence; try reflexivity.
  - rewrite Qltb_lt, !Qltb_ge. intros; lra.
Qed.

(** The scan of [argmax] keeps an index of a largest cell seen so far. *)
Lemma argmax_from_spec (pre l : marray) (best_idx : nat) :
  (best_idx < List.length pre)%nat ->
  (forall j, (j < List.length pre)%nat ->
             score_ltb (nth best_idx pre None) (nth j pre None) = false) ->
  let r := argmax_from best_idx (nth best_idx pre None) (List.length pre) l in
  (r < List.length (pre ++ l))%nat
  /\ forall j, (j < List.length (pre ++ l))%nat ->
               score_ltb (nth r (pre ++ l) None) (nth j (pre ++ l) None) = false.
Proof.
  revert pre best_idx. induction l as [|x l IH]; intros pre best_idx Hlt Hmax; simpl.
  - rewrite app_nil_r. split; assumption.
  - replace (pre ++ x :: l) with ((pre ++ [x]) ++ l) by now rewrite <- app_assoc.
    assert (Hlen : List.length (pre ++ [x]) = S (List.length pre))
      by (rewrite length_app; simpl; lia).
    destruct (score_ltb (nth best_idx pre None) x) eqn:E.
    + specialize (IH (pre ++ [x]) (List.length pre)).
      rewrite Hlen in IH. rewrite app_nth2, Nat.sub_diag in IH by lia. simpl in IH.
      apply IH; [lia|]. intros j Hj.
      destruct (Nat.eq_dec j (List.length pre)) as [-> | Hne].
      * rewrite app_nth2, Nat.sub_diag by lia. simpl. apply score_ltb_irrefl.
      * rewrite app_nth1 by lia. eapply score_ltb_raise; [exact E|]. apply Hmax. lia.
    + specialize (IH (pre ++ [x]) best_idx).
      rewrite Hlen in IH. rewrite app_nth1 in IH by lia.
      apply IH; [lia|]. intros j Hj.
      destruct (Nat.eq_dec j (List.length pre)) as [-> | Hne].
      * rewrite app_nth2, Nat.sub_diag by lia. simpl. exact E.
      * rewrite app_nth1 by lia. apply Hmax. lia.
Qed.

Lemma np_argmax_spec (scores : marray) (r : nat) :
  np_argmax scores = Ok r ->
  (r < List.length scores)%nat
  /\ forall j, (j < List.length scores)%nat ->
               score_ltb (nth r scores None) (nth j scores None) = false.
Proof.
  destruct scores as [|x l]; simpl; [discriminate|]. intros Hr.
  inversion Hr as [Hr']; clear Hr.
  pose proof (argmax_from_spec [x] l 0) as Hspec. simpl in Hspec.
  apply Hspec; [lia|]. intros j Hj. assert (j = 0)%nat as -> by lia.
  apply score_ltb_irrefl.
Qed.

Lemma np_argmax_nonempty (scores : marray) :
  scores <> [] -> exists r, np_argmax scores = Ok r.
Proof.
  destruct scores as [|x l]; [congruence|]. intros _. simpl. eauto.
Qed.

(** ** The Generalized ESD loop *)

Section EsdProperties.
Context {L : NumericLib}.

Lemma scores_length (ts : marray) (hybrid : bool) :
  List.length
    (if hybrid then
       ma_abs (ma_div_scalar (ma_sub_scalar ts (ma_median ts))
                 (ma_median (ma_abs (ma_sub_scalar ts (ma_median ts)))))
     else ma_abs (ma_div_scalar (ma_sub_scalar ts (ma_mean ts)) (ma_std ts)))
  = List.length ts.
Proof.
  destruct hybrid;
    now rewrite ma_abs_length, ma_div_scalar_length, ma_sub_scalar_length.
Qed.

Lemma calculate_test_statistic_idx (ts : marray) (hybrid : bool) (stat : nat * option Q) :
  calculate_test_statistic ts hybrid = Ok stat -> (fst stat < List.length ts)%nat.
Proof.
  unfold calculate_test_statistic. intros Hstat.
  destruct (np_argmax _) as [r|e] eqn:Er; simpl in Hstat; [|discriminate].
  inversion Hstat; subst; simpl.
  apply np_argmax_spec in Er. rewrite scores_length in Er. apply Er.
Qed.

Lemma calculate_test_statistic_ok (ts : marray) (hybrid : bool) :
  ts <> [] -> exists stat, calculate_test_statistic ts hybrid = Ok stat.
Proof.
  intros Hne. unfold calculate_test_statistic.
  destruct (np_argmax_nonempty
              (if hybrid then
                 ma_abs (ma_div_scalar (ma_sub_scalar ts (ma_median ts))
                           (ma_median (ma_abs (ma_sub_scalar ts (ma_median ts)))))
               else ma_abs (ma_div_scalar (ma_sub_scalar ts (ma_mean ts)) (ma_std ts))))
    as [r Hr].
  - intros Hnil. apply (f_equal (@List.length _)) in Hnil.
    rewrite scores_length in Hnil. destruct ts; [congruence | discriminate].
  - rewrite Hr. simpl. eauto.
Qed.

Lemma calculate_critical_value_ok (size : Z) (alpha : Q) :
  size <> 0%Z -> exists c, calculate_critical_value size alpha = Ok c.
Proof.
  intros Hsize. unfold calculate_critical_value.
  apply Z.eqb_neq in Hsize. rewrite Hsize.
  destruct (t_ppf _ _); [destruct (Qltb _ 0)|]; eauto.
Qed.

(** What a successful iteration did. *)
Lemma esd_step_inv (alpha : Q) (hybrid : bool) (st st' : esd_state) (curr : nat) :
  esd_step alpha hybrid st curr = Ok st' ->
  exists stat critical_val,
    calculate_test_statistic (st_ts st) hybrid = Ok stat
    /\ calculate_critical_value
         (Z.of_nat (List.length (st_ts st)) - Z.of_nat curr)%Z alpha = Ok critical_val
    /\ st_ts st' = <[fst stat := None]> (st_ts st)
    /\ st_test_statistics st' = st_test_statistics st ++ [fst stat]
    /\ st_num_outliers st'
       = if exceeds (snd stat) critical_val then curr else st_num_outliers st.
Proof.
  unfold esd_step. intros Hstep.
  destruct (calculate_test_statistic _ _) as [stat|e]; simpl in Hstep; [|discriminate].
  destruct (calculate_critical_value _ _) as [c|e]; simpl in Hstep; [|discriminate].
  inversion Hstep; subst; simpl. exists stat, c. repeat split; reflexivity.
Qed.

Lemma esd_step_ok (alpha : Q) (hybrid : bool) (st : esd_state) (curr : nat) :
  (curr < List.length (st_ts st))%nat ->
  exists st', esd_step alpha hybrid st curr = Ok st'.
Proof.
  intros Hcurr. unfold esd_step.
  destruct (calculate_test_statistic_ok (st_ts st) hybrid) as [stat ->].
  { intros Hnil. rewrite Hnil in Hcurr. simpl in Hcurr. lia. }
  simpl.
  destruct (calculate_critical_value_ok
              (Z.of_nat (List.length (st_ts st)) - Z.of_nat curr) alpha) as [c ->];
    [lia|]. simpl. eauto.
Qed.

Lemma esd_loop_app (alpha : Q) (hybrid : bool) (r1 r2 : list nat) (st : esd_state) :
  esd_loop alpha hybrid (r1 ++ r2) st
  = (st' <- esd_loop alpha hybrid r1 st ;; esd_loop alpha hybrid r2 st').
Proof.
  revert st. induction r1 as [|c r1 IH]; intros st; simpl; [reflexivity|].
  destruct (esd_step alpha hybrid st c) as [st1|e]; simpl; [apply IH | reflexivity].
Qed.

Lemma esd_loop_length (alpha : Q) (hybrid : bool) (range : list nat) (st st' : esd_state) :
  esd_loop alpha hybrid range st = Ok st' ->
  List.length (st_ts st') = List.length (st_ts st)
  /\ List.length (st_test_statistics st')
     = (List.length (st_test_statistics st) + List.length range)%nat.
Proof.
  revert st. induction range as [|c range IH]; intros st; simpl.
  - intros Hst. inversion Hst; subst. lia.
  - destruct (esd_step alpha hybrid st c) as [st1|e] eqn:E; simpl; [|discriminate].
    intros Hloop. apply IH in Hloop.
    apply esd_step_inv in E. destruct E as (stat & c' & _ & _ & Hts & Hstats & _).
    rewrite Hts, length_insert in Hloop. rewrite Hstats, length_app in Hloop.
    simpl in Hloop. lia.
Qed.

Lemma esd_loop_ok (alpha : Q) (hybrid : bool) (m k : nat) (st : esd_state) :
  (k + m <= List.length (st_ts st))%nat ->
  exists st', esd_loop alpha hybrid (seq k m) st = Ok st'.
Proof.
  revert k st. induction m as [|m IH]; intros k st Hle; simpl; [eauto|].
  destruct (esd_step_ok alpha hybrid st k) as [st1 Hst1]; [lia|].
  rewrite Hst1. simpl. apply IH.
  apply esd_step_inv in Hst1. destruct Hst1 as (stat & c & _ & _ & Hts & _).
  rewrite Hts, length_insert. lia.
Qed.

Lemma ma_setitems_length (a : marray) (indices : list nat) (v : Q) :
  List.length (ma_setitems a indices v) = List.length a.
Proof.
  unfold ma_setitems. revert a. induction indices as [|i indices IH]; intros a; simpl;
    [reflexivity|]. now rewrite IH, length_insert.
Qed.

Lemma generalized_esd_column_length (ts : list Q) (max_anomalies : nat) (alpha : Q)
    (hybrid : bool) (mask : list cell) :
  generalized_esd_column ts max_anomalies alpha hybrid = Ok mask ->
  List.length mask = List.length ts.
Proof.
  unfold generalized_esd_column.
  destruct (esd_loop _ _ _ _) as [st|e] eqn:E; simpl; [|discriminate].
  intros Hmask. inversion Hmask; subst.
  unfold ma_astype_bool, np_zeros_like.
  rewrite length_map, ma_setitems_length, length_map.
  apply esd_loop_length in E. destruct E as [E _]. rewrite E.
  unfold esd_init, ma_array; simpl. apply length_map.
Qed.

(** The detector has no check of [max_anomalies]: up to the number of
    rows, every iteration count is served. *)
Lemma generalized_esd_column_ok (ts : list Q) (max_anomalies : nat) (alpha : Q)
    (hybrid : bool) :
  (max_anomalies <= List.length ts)%nat ->
  exists mask, generalized_esd_column ts max_anomalies alpha hybrid = Ok mask.
Proof.
  intros Hle. unfold generalized_esd_column.
  destruct (esd_loop_ok alpha hybrid max_anomalies 0 (esd_init ts)) as [st ->].
  - unfold esd_init, ma_array; simpl. rewrite length_map. lia.
  - simpl. eauto.
Qed.
End EsdProperties.

(** ** C1: no validation of [max_anomalies] *)

Lemma column_loop_ok (body : list Q -> result (list cell)) (n : nat)
    (cols : list (string * list Q)) :
  (forall name ts, In (name, ts) cols ->
     exists m, body ts = Ok m /\ List.length m = n) ->
  exists r, column_loop body cols = Ok r
            /\ map fst r = map fst cols
            /\ Forall (fun nc => List.length (snd nc) = n) r.
Proof.
  induction cols as [|[name ts] cols IH]; intros Hbody; simpl.
  - exists []. repeat split. constructor.
  - destruct (Hbody name ts) as (m & Hm & Hlen); [now left|].
    destruct IH as (r & Hr & Hnames & Hall).
    { intros name' ts' Hin. apply (Hbody name' ts'). now right. }
    rewrite Hm, Hr. simpl. exists ((name, m) :: r). repeat split.
    + simpl. now rewrite Hnames.
    + constructor; assumption.
Qed.

Lemma numeric_cols_length {K : Type} (df : DataFrame K) (name : string) (ts : list Q) :
  wf_frame df -> In (name, ts) (numeric_cols df) ->
  List.length ts = List.length (index df).
Proof.
  intros [Hlen _] Hin. apply numeric_cols_In in Hin.
  rewrite List.Forall_forall in Hlen. apply (Hlen (name, Numeric ts) Hin).
Qed.

(** C1 (as the code has it). The Generalized ESD detector does not
    validate [max_anomalies]: for every well-formed input of [n] rows and
    every [max_anomalies] with [n/2 <= max_anomalies <= n], the call
    raises nothing and returns a mask with the input's row index and one
    cell per row in each numeric column. *)
Theorem esd_large_max_anomalies_returns_mask {L : NumericLib} {K : Type}
    (df : DataFrame K) (max_anomalies : nat) (alpha : Q) (hybrid : bool) :
  wf_frame df ->
  (List.length (index df) <= 2 * max_anomalies)%nat ->
  (max_anomalies <= List.length (index df))%nat ->
  exists mask,
    detect_outlier_generalized_esd df max_anomalies alpha hybrid = Ok mask
    /\ mask_index mask = index df
    /\ map fst (mask_columns mask) = map fst (numeric_cols df)
    /\ Forall (fun nc => List.length (snd nc) = List.length (index df))
              (mask_columns mask).
Proof.
  intros Hwf _ Hle. unfold detect_outlier_generalized_esd, column_wise_raising.
  destruct (column_loop_ok
              (fun ts => generalized_esd_column ts max_anomalies alpha hybrid)
              (List.length (index df)) (numeric_cols df)) as (r & Hr & Hnames & Hall).
  - intros name ts Hin. pose proof (numeric_cols_length df name ts Hwf Hin) as Hlen.
    destruct (generalized_esd_column_ok ts max_anomalies alpha hybrid) as [m Hm];
      [lia|].
    exists m. split; [assumption|].
    apply generalized_esd_column_length in Hm. lia.
  - rewrite Hr. simpl. eexists. repeat split; simpl; assumption.
Qed.

Lemma esd_large_max_anomalies_returns_mask_witness :
  exists mask,
    detect_outlier_generalized_esd (L := example_numeric) (frame_of esd_example)
      4 (1 # 20) false = Ok mask
    /\ mask_index mask = index (frame_of esd_example)
    /\ map fst (mask_columns mask) = map fst (numeric_cols (frame_of esd_example))
    /\ Forall (fun nc => List.length (snd nc)
                         = List.length (index (frame_of esd_example)))
              (mask_columns mask).
Proof.
  apply (esd_large_max_anomalies_returns_mask (L := example_numeric)
           (frame_of esd_example) 4 (1 # 20) false).
  - split.
    + repeat constructor.
    + repeat constructor. simpl. intros Hin. inversion Hin.
  - simpl. lia.
  - simpl. lia.
Defined.

(** The claim of a validation error fails on the column of the
    specification's own example: with [max_anomalies = 4 >= 7/2] the
    detector returns a mask. *)
Lemma esd_no_validation_counterexample :
  (List.length esd_example <= 2 * 4)%nat
  /\ detect_outlier_generalized_esd (L := example_numeric) (frame_of esd_example)
       4 (1 # 20) false
     = Ok {| mask_index := [0; 1; 2; 3; 4; 5; 6]%nat;
             mask_columns :=
               [("x"%string,
                 [None; None; Some false; Some false; None; Some false; None])] |}.
Proof.
  split; [simpl; lia | vm_compute; reflexivity].
Qed.

(** ** The cells of a Generalized ESD mask *)

Lemma masked_positions_lookup (idxs : list nat) (a : marray) (j : nat) :
  (fold_left (fun acc i => <[i:=None]> acc) idxs a) !! j
  = if decide (j ∈ idxs)
    then (if decide (j < List.length a)%nat then Some None else None)
    else a !! j.
Proof.
  revert a. induction idxs as [|i idxs IH]; intros a; cbn [fold_left].
  - rewrite decide_False; [reflexivity | apply not_elem_of_nil].
  - rewrite IH, length_insert.
    destruct (decide (j ∈ i :: idxs)) as [Hin | Hnin];
      destruct (decide (j ∈ idxs)) as [Hin' | Hnin'].
    + reflexivity.
    + apply elem_of_cons in Hin. destruct Hin as [-> | Hin]; [|contradiction].
      destruct (decide (i < List.length a)%nat) as [Hlt | Hge].
      * now apply list_lookup_insert_eq.
      * rewrite list_insert_ge by lia. apply lookup_ge_None. lia.
    + exfalso. apply Hnin. apply elem_of_cons. now right.
    + apply list_lookup_insert_ne. intros ->. apply Hnin. apply elem_of_cons. now left.
Qed.

Lemma ma_setitems_lookup (idxs : list nat) (a : marray) (v : Q) (j : nat) :
  (ma_setitems a idxs v) !! j
  = if decide (j ∈ idxs)
    then (if decide (j < List.length a)%nat then Some (Some v) else None)
    else a !! j.
Proof.
  unfold ma_setitems. revert a. induction idxs as [|i idxs IH]; intros a; cbn [fold_left].
  - rewrite decide_False; [reflexivity | apply not_elem_of_nil].
  - rewrite IH, length_insert.
    destruct (decide (j ∈ i :: idxs)) as [Hin | Hnin];
      destruct (decide (j ∈ idxs)) as [Hin' | Hnin'].
    + reflexivity.
    + apply elem_of_cons in Hin. destruct Hin as [-> | Hin]; [|contradiction].
      destruct (decide (i < List.length a)%nat) as [Hlt | Hge].
      * now apply list_lookup_insert_eq.
      * rewrite list_insert_ge by lia. apply lookup_ge_None. lia.
    + exfalso. apply Hnin. apply elem_of_cons. now right.
    + apply list_lookup_insert_ne. intros ->. apply Hnin. apply elem_of_cons. now left.
Qed.

Section EsdCells.
Context {L : NumericLib}.

(** The working copy after the loop: the candidates of the iterations
    are masked, every other cell keeps its value. *)
Lemma esd_loop_masks (alpha : Q) (hybrid : bool) (range : list nat)
    (st st' : esd_state) :
  esd_loop alpha hybrid range st = Ok st' ->
  exists candidates,
    st_test_statistics st' = st_test_statistics st ++ candidates
    /\ st_ts st' = fold_left (fun acc i => <[i:=None]> acc) candidates (st_ts st).
Proof.
  revert st. induction range as [|c range IH]; intros st; simpl.
  - intros Hst. inversion Hst; subst. exists []. now rewrite app_nil_r.
  - destruct (esd_step alpha hybrid st c) as [st1|e] eqn:E; simpl; [|discriminate].
    intros Hloop. destruct (IH _ Hloop) as (cands & Hstats & Hts).
    apply esd_step_inv in E. destruct E as (stat & c' & _ & _ & Hts1 & Hstats1 & _).
    exists (fst stat :: cands). split.
    + now rewrite Hstats, Hstats1, <- app_assoc.
    + simpl. now rewrite Hts, Hts1.
Qed.

Lemma esd_run_masks (alpha : Q) (hybrid : bool) (m : nat) (ts : list Q)
    (st : esd_state) :
  esd_loop alpha hybrid (seq 0 m) (esd_init ts) = Ok st ->
  st_ts st
  = fold_left (fun acc i => <[i:=None]> acc) (st_test_statistics st) (ma_array ts).
Proof.
  intros Hloop. destruct (esd_loop_masks _ _ _ _ _ Hloop) as (cands & Hstats & Hts).
  simpl in Hstats. now subst cands.
Qed.

(** Every cell of the column that the detector returns: true on the
    confirmed positions, missing on the other candidates (their mask is
    inherited by [np.zeros_like]), false elsewhere. *)
Lemma esd_column_cells (ts : list Q) (max_anomalies : nat) (alpha : Q)
    (hybrid : bool) (mask : list cell) :
  generalized_esd_column ts max_anomalies alpha hybrid = Ok mask ->
  exists st,
    esd_loop alpha hybrid (seq 0 max_anomalies) (esd_init ts) = Ok st
    /\ forall j, (j < List.length ts)%nat ->
         mask !! j
         = Some (if decide (j ∈ anomalous_indices st) then Some true
                 else if decide (j ∈ st_test_statistics st) then None
                      else Some false).
Proof.
  unfold generalized_esd_column.
  destruct (esd_loop _ _ _ _) as [st|e] eqn:E; simpl; [|discriminate].
  intros Hmask. inversion Hmask; subst. exists st. split; [reflexivity|].
  intros j Hj. unfold ma_astype_bool, np_zeros_like.
  rewrite list_lookup_fmap, ma_setitems_lookup, length_map.
  pose proof (esd_loop_length _ _ _ _ _ E) as [Hlen _].
  unfold esd_init, ma_array in Hlen; simpl in Hlen. rewrite length_map in Hlen.
  destruct (decide (j ∈ anomalous_indices st)) as [Ha | Ha].
  - rewrite decide_True by lia. reflexivity.
  - rewrite list_lookup_fmap, (esd_run_masks _ _ _ _ _ E), masked_positions_lookup.
    unfold ma_array. rewrite length_map.
    destruct (decide (j ∈ st_test_statistics st)) as [Hc | Hc].
    + rewrite decide_True by lia. reflexivity.
    + rewrite list_lookup_fmap.
      destruct (ts !! j) as [x|] eqn:Ex; [reflexivity|].
      apply lookup_ge_None in Ex. lia.
Qed.

(** The value of [num_outliers] after the loop: the last iteration
    whose test passed when that iteration is not the first one, and
    zero both when no test passed and when only the first did. *)
Lemma esd_loop_num_outliers (alpha : Q) (hybrid : bool) (ts : list Q) (m : nat)
    (st : esd_state) :
  esd_loop alpha hybrid (seq 0 m) (esd_init ts) = Ok st ->
  (forall i, (st_num_outliers st < i < m)%nat -> ~ test_passes alpha hybrid ts i)
  /\ (st_num_outliers st <> 0%nat ->
      test_passes alpha hybrid ts (st_num_outliers st)
      /\ (st_num_outliers st < m)%nat).
Proof.
  revert st. induction m as [|m IH]; intros st.
  - simpl. intros Hst. inversion Hst; subst; simpl. split; [lia | congruence].
  - rewrite seq_S, esd_loop_app. simpl.
    destruct (esd_loop alpha hybrid (seq 0 m) (esd_init ts)) as [stm|e] eqn:Em;
      simpl; [|discriminate].
    destruct (esd_step alpha hybrid stm m) as [st1|e] eqn:Es; simpl; [|discriminate].
    intros Hst. inversion Hst; subst st1. clear Hst.
    destruct (IH stm eq_refl) as [IHnone IHpass].
    apply esd_step_inv in Es.
    destruct Es as (stat & c & Hstat & Hcrit & _ & _ & Hnum).
    destruct (exceeds (snd stat) c) eqn:Ex; rewrite Hnum.
    + split; [lia|]. intros _. split; [|lia].
      exists stm, stat, c. repeat split; assumption.
    + split.
      * intros i Hi. destruct (Nat.eq_dec i m) as [-> | Hne].
        -- intros (st' & stat' & c' & Hloop' & Hstat' & Hcrit' & Hex').
           rewrite Em in Hloop'. inversion Hloop'; subst st'.
           rewrite Hstat in Hstat'. inversion Hstat'; subst stat'.
           rewrite Hcrit in Hcrit'. inversion Hcrit'; subst c'. congruence.
        -- apply IHnone. lia.
      * intros Hne. destruct (IHpass Hne) as [Hp Hlt]. split; [assumption | lia].
Qed.

(** Without a pass after the first iteration, [num_outliers] is zero
    and the column that comes back flags nothing. *)
Lemma esd_no_later_pass_flags_nothing (ts : list Q) (max_anomalies : nat)
    (alpha : Q) (hybrid : bool) (mask : list cell) :
  generalized_esd_column ts max_anomalies alpha hybrid = Ok mask ->
  (forall i, (0 < i < max_anomalies)%nat -> ~ test_passes alpha hybrid ts i) ->
  forall j, mask !! j <> Some (Some true).
Proof.
  intros Hmask Hlater j Hj.
  pose proof (generalized_esd_column_length _ _ _ _ _ Hmask) as Hlen.
  destruct (esd_column_cells _ _ _ _ _ Hmask) as (st & Hloop & Hcells).
  assert (Hjlt : (j < List.length ts)%nat).
  { rewrite <- Hlen. apply lookup_lt_is_Some. eauto. }
  rewrite (Hcells j Hjlt) in Hj.
  destruct (esd_loop_num_outliers _ _ _ _ _ Hloop) as [_ Hpass].
  assert (Hzero : st_num_outliers st = 0%nat).
  { destruct (Nat.eq_dec (st_num_outliers st) 0%nat) as [Hz | Hnz]; [assumption|].
    destruct (Hpass Hnz) as [Hp Hlt]. exfalso. apply (Hlater (st_num_outliers st)); [lia|].
    exact Hp. }
  unfold anomalous_indices in Hj. rewrite Hzero in Hj.
  cbn [Nat.ltb Nat.leb] in Hj.
  rewrite (decide_False (P := j ∈ [])) in Hj by apply not_elem_of_nil.
  destruct (decide (j ∈ st_test_statistics st)); congruence.
Qed.

(** In particular, a pass at the first iteration alone is lost: the
    outcome is the one of a run in which no test passes. *)
Lemma esd_first_pass_alone_flags_nothing (ts : list Q) (max_anomalies : nat)
    (alpha : Q) (hybrid : bool) (mask : list cell) :
  generalized_esd_column ts max_anomalies alpha hybrid = Ok mask ->
  test_passes alpha hybrid ts 0 ->
  (forall i, (0 < i < max_anomalies)%nat -> ~ test_passes alpha hybrid ts i) ->
  forall j, mask !! j <> Some (Some true).
Proof.
  intros Hmask _ Hlater. now apply (esd_no_later_pass_flags_nothing ts max_anomalies alpha hybrid).
Qed.

Lemma esd_loop_candidates_in_range (alpha : Q) (hybrid : bool) (range : list nat)
    (st st' : esd_state) :
  esd_loop alpha hybrid range st = Ok st' ->
  Forall (fun i => (i < List.length (st_ts st))%nat) (st_test_statistics st) ->
  Forall (fun i => (i < List.length (st_ts st))%nat) (st_test_statistics st').
Proof.
  revert st. induction range as [|c range IH]; intros st; simpl.
  - intros Hst. now inversion Hst.
  - destruct (esd_step alpha hybrid st c) as [st1|e] eqn:E; simpl; [|discriminate].
    intros Hloop Hall. apply esd_step_inv in E.
    destruct E as (stat & c' & Hstat & _ & Hts & Hstats & _).
    apply calculate_test_statistic_idx in Hstat.
    specialize (IH st1 Hloop). rewrite Hts, Hstats, length_insert in IH.
    apply IH. apply Forall_app. split; [assumption|]. now constructor.
Qed.

(** When a test passes after the first iteration, the flagged cells are
    the candidates of the iterations 0 to [num_outliers], the last
    iteration whose test passed. *)
Lemma esd_later_pass_flags_prefix (ts : list Q) (max_anomalies : nat)
    (alpha : Q) (hybrid : bool) (mask : list cell) (st : esd_state) :
  generalized_esd_column ts max_anomalies alpha hybrid = Ok mask ->
  esd_loop alpha hybrid (seq 0 max_anomalies) (esd_init ts) = Ok st ->
  forall j,
    mask !! j = Some (Some true)
    <-> (0 < st_num_outliers st)%nat
        /\ j ∈ firstn (st_num_outliers st + 1) (st_test_statistics st).
Proof.
  intros Hmask Hloop j.
  pose proof (generalized_esd_column_length _ _ _ _ _ Hmask) as Hlen.
  destruct (esd_column_cells _ _ _ _ _ Hmask) as (st' & Hloop' & Hcells).
  rewrite Hloop in Hloop'. inversion Hloop'; subst st'. clear Hloop'.
  pose proof (esd_loop_candidates_in_range _ _ _ _ _ Hloop) as Hrange.
  unfold esd_init, ma_array in Hrange; simpl in Hrange. rewrite length_map in Hrange.
  specialize (Hrange (List.Forall_nil _)).
  unfold anomalous_indices in Hcells. split.
  - intros Hj.
    assert (Hjlt : (j < List.length ts)%nat).
    { rewrite <- Hlen. apply lookup_lt_is_Some. eauto. }
    rewrite (Hcells j Hjlt) in Hj.
    destruct (0 <? st_num_outliers st)%nat eqn:En.
    + apply Nat.ltb_lt in En. split; [assumption|].
      destruct (decide (j ∈ firstn (st_num_outliers st + 1) (st_test_statistics st)));
        [assumption|].
      destruct (decide (j ∈ st_test_statistics st)); congruence.
    + rewrite (decide_False (P := j ∈ [])) in Hj by apply not_elem_of_nil.
      destruct (decide (j ∈ st_test_statistics st)); congruence.
  - intros [Hpos Hin].
    assert (Hjlt : (j < List.length ts)%nat).
    { rewrite List.Forall_forall in Hrange. apply Hrange.
      apply list_elem_of_In. eapply subseteq_take. exact Hin. }
    rewrite (Hcells j Hjlt). apply Nat.ltb_lt in Hpos. rewrite Hpos.
    now rewrite decide_True.
Qed.

(** A candidate that is not confirmed is a missing cell of the mask. *)
Lemma esd_unconfirmed_candidate_missing (ts : list Q) (max_anomalies : nat)
    (alpha : Q) (hybrid : bool) (mask : list cell) (st : esd_state) (j : nat) :
  generalized_esd_column ts max_anomalies alpha hybrid = Ok mask ->
  esd_loop alpha hybrid (seq 0 max_anomalies) (esd_init ts) = Ok st ->
  j ∈ st_test_statistics st ->
  j ∉ anomalous_indices st ->
  (j < List.length ts)%nat ->
  mask !! j = Some None.
Proof.
  intros Hmask Hloop Hcand Hnot Hj.
  destruct (esd_column_cells _ _ _ _ _ Hmask) as (st' & Hloop' & Hcells).
  rewrite Hloop in Hloop'. inversion Hloop'; subst st'.
  rewrite (Hcells j Hj). now rewrite decide_False, decide_True.
Qed.
End EsdCells.

(** ** C2: the flagged set when the test passes at the first iteration *)

(** C2 (at the failing input). On the column of the specification's
    example, [10, 11, 9, 10, 11, 9, 1000] with [max_anomalies = 3] and
    [alpha = 0.05], the test of iteration 0 passes (the candidate is the
    row of 1000), and yet the returned column flags no row: the row of
    1000 is not in the flagged set. *)
Theorem esd_example_first_pass_dropped :
  test_passes (L := example_numeric) (1 # 20) false esd_example 0
  /\ (exists v, calculate_test_statistic (L := example_numeric)
                  (ma_array esd_example) false = Ok (6%nat, Some v))
  /\ generalized_esd_column (L := example_numeric) esd_example 3 (1 # 20) false
     = Ok [Some false; None; Some false; Some false; None; Some false; None]
  /\ flagged_count [Some false; None; Some false; Some false; None; Some false; None]
     = 0%nat.
Proof.
  split; [|split; [|split]].
  - exists (esd_init esd_example).
    let s := eval vm_compute in
      (calculate_test_statistic (L := example_numeric) (ma_array esd_example) false) in
    match s with Ok ?stat => exists stat end.
    let c := eval vm_compute in
      (calculate_critical_value (L := example_numeric) 7 (1 # 20)) in
    match c with Ok ?crit => exists crit end.
    repeat split; vm_compute; reflexivity.
  - let s := eval vm_compute in
      (calculate_test_statistic (L := example_numeric) (ma_array esd_example) false) in
    match s with Ok (_, Some ?v) => exists v end.
    vm_compute. reflexivity.
  - vm_compute. reflexivity.
  - reflexivity.
Qed.

(** ** C3: shape and cells of the masks *)

Section MaskShape.
Context {L : NumericLib} {K : Type}.

Lemma detect_outlier_sd_shape (df : DataFrame K) (sd_multiple : Q) :
  wf_frame df ->
  mask_index (detect_outlier_sd df sd_multiple) = index df
  /\ Forall (fun nc => List.length (snd nc) = List.length (index df)
                       /\ all_boolean (snd nc))
            (mask_columns (detect_outlier_sd df sd_multiple)).
Proof.
  intros Hwf. split; [reflexivity|].
  unfold detect_outlier_sd, column_wise; simpl.
  apply Forall_map. apply List.Forall_forall. intros [name ts] Hin. simpl. split.
  - unfold sd_mask. rewrite !length_map.
    now apply (numeric_cols_length df name ts).
  - unfold all_boolean. apply Forall_map. apply List.Forall_forall.
    intros b _. discriminate.
Qed.

Lemma column_loop_shape (body : list Q -> result (list cell)) (P : list cell -> Prop)
    (cols : list (string * list Q)) (r : list (string * list cell)) :
  (forall name ts m, In (name, ts) cols -> body ts = Ok m -> P m) ->
  column_loop body cols = Ok r ->
  Forall (fun nc => P (snd nc)) r.
Proof.
  revert r. induction cols as [|[name ts] cols IH]; intros r Hbody; simpl.
  - intros Hr. inversion Hr; subst. constructor.
  - destruct (body ts) as [m|e] eqn:Em; simpl; [|discriminate].
    destruct (column_loop body cols) as [rest|e] eqn:Er; simpl; [|discriminate].
    intros Hr. inversion Hr; subst. constructor.
    + simpl. apply (Hbody name ts m); [now left | assumption].
    + apply IH; [|reflexivity]. intros n t m' Hin. apply (Hbody n t m'). now right.
Qed.

Lemma detect_outlier_iqr_shape (df : DataFrame K) (iqr_multiple : Q)
    (mask : MaskFrame K) :
  wf_frame df ->
  detect_outlier_iqr df iqr_multiple = Ok mask ->
  mask_index mask = index df
  /\ Forall (fun nc => List.length (snd nc) = List.length (index df)
                       /\ all_boolean (snd nc))
            (mask_columns mask).
Proof.
  intros Hwf. unfold detect_outlier_iqr, column_wise_raising.
  destruct (column_loop _ _) as [cols|e] eqn:Ec; simpl; [|discriminate].
  intros Hm. inversion Hm; subst; simpl. split; [reflexivity|].
  refine (column_loop_shape _
            (fun m => List.length m = List.length (index df) /\ all_boolean m)
            _ _ _ Ec).
  intros name ts m Hin. unfold iqr_mask.
  destruct (np_quantile ts (1 # 4)); simpl; [|discriminate].
  destruct (np_quantile ts (1 # 2)); simpl; [|discriminate].
  destruct (np_quantile ts (3 # 4)); simpl; [|discriminate].
  intros Hmask. inversion Hmask; subst. split.
  - rewrite !length_map. now apply (numeric_cols_length df name ts).
  - unfold all_boolean. apply Forall_map. apply List.Forall_forall.
    intros b _. discriminate.
Qed.

Lemma isolation_forest_loop_shape {M : ModelLib} (n_rows : nat) (f : fraction)
    (cols : list (string * list Q)) (kwargs : gmap string kwval)
    (r : list (string * list cell)) :
  isolation_forest_loop n_rows f kwargs cols = Ok r ->
  Forall (fun nc => List.length (snd nc) = n_rows /\ all_boolean (snd nc)) r.
Proof.
  revert kwargs r. induction cols as [|[name ts] cols IH]; intros kwargs r; simpl.
  - intros Hr. inversion Hr; subst. constructor.
  - destruct (isolation_forest_column n_rows f kwargs ts) as [[kw m]|e] eqn:Ec;
      simpl; [|discriminate].
    destruct (isolation_forest_loop n_rows f kw cols) as [rest|e] eqn:Er;
      simpl; [|discriminate].
    intros Hr. inversion Hr; subst. constructor; [|now apply (IH kw)].
    simpl. unfold isolation_forest_column in Ec.
    destruct (standard_scale ts); simpl in Ec; [|discriminate].
    destruct (isolation_forest _ _) as [pred|]; [|discriminate].
    destruct (_ =? n_rows)%nat eqn:El; [|discriminate].
    inversion Ec; subst. split.
    + now apply Nat.eqb_eq.
    + unfold all_boolean. apply Forall_map. apply List.Forall_forall.
      intros p _. discriminate.
Qed.

Lemma detect_outlier_isolation_forest_shape {M : ModelLib} (df : DataFrame K)
    (f : fraction) (kwargs : gmap string kwval) (mask : MaskFrame K) :
  detect_outlier_isolation_forest df f kwargs = Ok mask ->
  mask_index mask = index df
  /\ Forall (fun nc => List.length (snd nc) = List.length (index df)
                       /\ all_boolean (snd nc))
            (mask_columns mask).
Proof.
  unfold detect_outlier_isolation_forest.
  destruct (check_outlier_fraction f); simpl; [|discriminate].
  destruct (isolation_forest_loop _ _ _ _) as [cols|e] eqn:Ec; simpl; [|discriminate].
  intros Hm. inversion Hm; subst; simpl. split; [reflexivity|].
  now apply isolation_forest_loop_shape in Ec.
Qed.

Lemma detect_outlier_generalized_esd_shape (df : DataFrame K) (max_anomalies : nat)
    (alpha : Q) (hybrid : bool) (mask : MaskFrame K) :
  wf_frame df ->
  detect_outlier_generalized_esd df max_anomalies alpha hybrid = Ok mask ->
  mask_index mask = index df
  /\ Forall (fun nc => List.length (snd nc) = List.length (index df))
            (mask_columns mask).
Proof.
  intros Hwf. unfold detect_outlier_generalized_esd, column_wise_raising.
  destruct (column_loop _ _) as [cols|e] eqn:Ec; simpl; [|discriminate].
  intros Hm. inversion Hm; subst; simpl. split; [reflexivity|].
  refine (column_loop_shape _
            (fun m => List.length m = List.length (index df)) _ _ _ Ec).
  intros name ts m Hin Hmask. apply generalized_esd_column_length in Hmask.
  rewrite Hmask. now apply (numeric_cols_length df name ts).
Qed.

Lemma detect_outlier_multivariable_shape {M : ModelLib} (df : DataFrame K)
    (contaminacion : Q) (n_estimators : Z) (plot : bool) (random_state : Z)
    (mask : MaskFrame K) :
  detect_outlier_multivariable_isolation_forest df contaminacion n_estimators
    plot random_state = Ok mask ->
  mask_index mask = index df
  /\ exists name col,
       mask_columns mask = [(name, col)]
       /\ List.length col = List.length (index df)
       /\ all_boolean col.
Proof.
  unfold detect_outlier_multivariable_isolation_forest.
  destruct (isolation_forest _ _) as [outliers|]; [|discriminate].
  destruct (_ =? _)%nat eqn:El; simpl; [|discriminate].
  destruct (counts_getitem _ _); simpl; [|discriminate].
  destruct (plot && _); [discriminate|].
  intros Hm. inversion Hm; subst; simpl. split; [reflexivity|].
  eexists; eexists. split; [reflexivity|]. split.
  - rewrite length_map. now apply Nat.eqb_eq.
  - unfold all_boolean. apply Forall_map. apply List.Forall_forall.
    intros x _. discriminate.
Qed.

(** One iteration is enough for a missing cell, whatever the numeric
    library answers: the candidate is masked, and with
    [num_outliers = 0] no position is written back. *)
Lemma esd_single_iteration_missing_cell (ts : list Q) (alpha : Q) (hybrid : bool) :
  ts <> [] ->
  exists mask j,
    generalized_esd_column ts 1 alpha hybrid = Ok mask
    /\ mask !! j = Some None.
Proof.
  intros Hne.
  destruct (generalized_esd_column_ok ts 1 alpha hybrid) as [mask Hmask].
  { destruct ts; [congruence | simpl; lia]. }
  destruct (esd_column_cells _ _ _ _ _ Hmask) as (st & Hloop & Hcells).
  simpl in Hloop.
  destruct (esd_step alpha hybrid (esd_init ts) 0) as [st1|e] eqn:Es;
    simpl in Hloop; [|discriminate].
  inversion Hloop; subst st1. apply esd_step_inv in Es.
  destruct Es as (stat & c & Hstat & _ & _ & Hstats & Hnum).
  apply calculate_test_statistic_idx in Hstat.
  unfold esd_init, ma_array in Hstat; simpl in Hstat. rewrite length_map in Hstat.
  exists mask, (fst stat). split; [assumption|].
  rewrite (Hcells _ Hstat). unfold anomalous_indices.
  assert (st_num_outliers st = 0%nat) as -> by (rewrite Hnum; now destruct (exceeds _ _)).
  cbn [Nat.ltb Nat.leb].
  rewrite (decide_False (P := fst stat ∈ [])) by apply not_elem_of_nil.
  rewrite decide_True; [reflexivity|]. rewrite Hstats. simpl. apply elem_of_cons. now left.
Qed.
End MaskShape.

(** C3 (at the failing input). On the single-column dataset
    [10, 11, 9, 10, 11, 9, 1000] with [max_anomalies = 3] and
    [alpha = 0.05], the Generalized ESD detector returns a column whose
    cells at the three candidate rows (1, 4 and 6) are missing values, not
    booleans; the row index and the number of cells are those of the
    input. *)
Theorem esd_example_mask_has_missing_cells :
  detect_outlier_generalized_esd (L := example_numeric) (frame_of esd_example)
    3 (1 # 20) false
  = Ok {| mask_index := index (frame_of esd_example);
          mask_columns :=
            [("x"%string,
              [Some false; None; Some false; Some false; None; Some false; None])] |}
  /\ ~ all_boolean [Some false; None; Some false; Some false; None; Some false; None].
Proof.
  split; [vm_compute; reflexivity|].
  unfold all_boolean. intros Hall.
  inversion Hall as [|c l _ Hrest]; subst.
  inversion Hrest as [|c' l' Hnone _]; subst. now apply Hnone.
Qed.

(** ** C10: the test statistic of the non-hybrid mode *)

Lemma Qsum_map_ext (f g : Q -> Q) (l : list Q) :
  (forall x, f x == g x) -> Qsum (map f l) == Qsum (map g l).
Proof.
  intros Hfg. induction l as [|x l IH]; simpl; [reflexivity|].
  now rewrite IH, (Hfg x).
Qed.

(** A cell of the scores [|(ts - s1) / s2|]. *)
Lemma scores_lookup (ts : marray) (s1 s2 : option Q) (j : nat) :
  ma_abs (ma_div_scalar (ma_sub_scalar ts s1) s2) !! j
  = match ts !! j with
    | None => None
    | Some c =>
        Some (match s1, s2, c with
              | Some m, Some d, Some x =>
                  if Qeqb d 0 then None else Some (Qabs ((x - m) / d))
              | _, _, _ => None
              end)
    end.
Proof.
  unfold ma_abs, ma_div_scalar, ma_sub_scalar.
  destruct s1 as [m|], s2 as [d|]; try destruct (Qeqb d 0);
    rewrite ?list_lookup_fmap; destruct (ts !! j) as [[x|]|]; reflexivity.
Qed.

Lemma scores_nth (ts : marray) (s1 s2 : option Q) (j : nat) :
  nth j (ma_abs (ma_div_scalar (ma_sub_scalar ts s1) s2)) None
  = match ts !! j, s1, s2 with
    | Some (Some x), Some m, Some d =>
        if Qeqb d 0 then None else Some (Qabs ((x - m) / d))
    | _, _, _ => None
    end.
Proof.
  rewrite nth_lookup, scores_lookup.
  destruct (ts !! j) as [[x|]|], s1, s2; reflexivity.
Qed.

Section TestStatistic.
Context {L : NumericLib} {Laws : NumericLaws L}.

Lemma ma_mean_population (ts : marray) (m : Q) :
  ma_mean ts = Some m -> m == population_mean (ma_compressed ts).
Proof.
  unfold ma_mean, population_mean, Qlen.
  rewrite <- ma_count_compressed, <- ma_sum_compressed.
  destruct (ma_count ts); [discriminate|]. intros Hm. inversion Hm. reflexivity.
Qed.

Lemma ma_var_population (ts : marray) (v : Q) :
  ma_var 0 ts = Some v -> v == population_variance (ma_compressed ts).
Proof.
  unfold ma_var. destruct (ma_mean ts) as [m|] eqn:Em; [|discriminate].
  apply ma_mean_population in Em.
  destruct (_ =? 0)%Z; [discriminate|]. intros Hv. inversion Hv.
  unfold population_variance, Qlen. rewrite <- ma_count_compressed.
  rewrite ma_sum_map_compressed, Z.sub_0_r.
  rewrite (Qsum_map_ext
             (fun x => (x - m) * (x - m))
             (fun x => (x - population_mean (ma_compressed ts)) ^ 2)).
  - reflexivity.
  - intros x. rewrite Em. simpl. ring.
Qed.

Lemma ma_std_population (ts : marray) (d : Q) :
  ma_std ts = Some d -> d == population_std (ma_compressed ts).
Proof.
  unfold ma_std, population_std. destruct (ma_var 0 ts) as [v|] eqn:Ev; [|discriminate].
  intros Hd. inversion Hd. apply np_sqrt_proper. now apply ma_var_population.
Qed.

Lemma z_score_form (x m d mu sigma : Q) :
  m == mu -> d == sigma -> 0 <= sigma ->
  Qabs ((x - m) / d) == Qabs (x - mu) / sigma.
Proof.
  intros Hm Hd Hs. rewrite Hm, Hd. unfold Qdiv.
  rewrite Qabs_Qmult, Qabs_Qinv, (Qabs_pos sigma Hs). reflexivity.
Qed.

(** The statistic of one call: the score of the returned position is
    its distance to the mean of the active values over their
    population standard deviation, and no active value has a larger
    score. *)
Lemma test_statistic_population (ts : marray) (idx : nat) (v : Q) :
  calculate_test_statistic ts false = Ok (idx, Some v) ->
  (exists x,
      ts !! idx = Some (Some x)
      /\ v == Qabs (x - population_mean (ma_compressed ts))
              / population_std (ma_compressed ts))
  /\ (forall j y,
         ts !! j = Some (Some y) ->
         Qabs (y - population_mean (ma_compressed ts))
           / population_std (ma_compressed ts) <= v).
Proof.
  unfold calculate_test_statistic.
  destruct (np_argmax _) as [r|e] eqn:Er; cbn [bind]; [|discriminate].
  intros Hstat. inversion Hstat as [[Hidx Hv]]. subst r. clear Hstat.
  apply np_argmax_spec in Er. destruct Er as [Hlt Hmax].
  rewrite scores_nth in Hv.
  destruct (ts !! idx) as [[x|]|] eqn:Ex; try discriminate;
    destruct (ma_mean ts) as [m|] eqn:Em; try discriminate;
    destruct (ma_std ts) as [d|] eqn:Ed; try discriminate.
  destruct (Qeqb d 0) eqn:Ez; [discriminate|].
  assert (Hv' : Qabs ((x - m) / d) = v) by congruence. clear Hv.
  pose proof (ma_mean_population ts m Em) as Hm.
  pose proof (ma_std_population ts d Ed) as Hd.
  assert (Hsig : 0 <= population_std (ma_compressed ts))
    by apply np_sqrt_nonneg.
  split.
  - exists x. split; [reflexivity|]. rewrite <- Hv'.
    apply z_score_form; assumption.
  - intros j y Hy.
    assert (Hj : (j < List.length
                    (ma_abs (ma_div_scalar (ma_sub_scalar ts (Some m)) (Some d))))%nat).
    { rewrite ma_abs_length, ma_div_scalar_length, ma_sub_scalar_length.
      apply lookup_lt_is_Some. eauto. }
    specialize (Hmax j Hj). rewrite !scores_nth in Hmax.
    rewrite Ex, Hy, Ez in Hmax. cbn [score_ltb] in Hmax. apply Qltb_ge in Hmax.
    rewrite <- (z_score_form y m d _ _ Hm Hd Hsig).
    rewrite <- Hv'. exact Hmax.
Qed.

(** C10. In non-hybrid mode, at every iteration of a Generalized ESD
    run, the working copy masks exactly the candidates of the earlier
    iterations, and the test statistic is [|x - mean| / std] of the
    candidate, where mean and std are the mean and the population
    standard deviation (divisor: the number of active values, that is,
    [ddof = 0]) of the values that are still active; it is the largest
    such score. *)
Theorem esd_statistic_is_population_z_score (ts : list Q) (alpha : Q) (k : nat)
    (st : esd_state) (idx : nat) (v : Q) :
  esd_loop alpha false (seq 0 k) (esd_init ts) = Ok st ->
  calculate_test_statistic (st_ts st) false = Ok (idx, Some v) ->
  List.length (st_test_statistics st) = k
  /\ st_ts st
     = fold_left (fun acc i => <[i:=None]> acc) (st_test_statistics st) (ma_array ts)
  /\ (exists x,
         st_ts st !! idx = Some (Some x)
         /\ v == Qabs (x - population_mean (ma_compressed (st_ts st)))
                 / population_std (ma_compressed (st_ts st)))
  /\ (forall j y,
         st_ts st !! j = Some (Some y) ->
         Qabs (y - population_mean (ma_compressed (st_ts st)))
           / population_std (ma_compressed (st_ts st)) <= v).
Proof.
  intros Hloop Hstat. split; [|split].
  - apply esd_loop_length in Hloop. destruct Hloop as [_ Hlen].
    rewrite Hlen, length_seq. reflexivity.
  - now apply (esd_run_masks alpha false k).
  - now apply test_statistic_population.
Qed.
End TestStatistic.

Lemma esd_statistic_is_population_z_score_witness :
  exists st idx v,
    esd_loop (L := example_numeric) (1 # 20) false (seq 0 1) (esd_init esd_example)
    = Ok st
    /\ calculate_test_statistic (L := example_numeric) (st_ts st) false
       = Ok (idx, Some v)
    /\ List.length (st_test_statistics st) = 1%nat
    /\ st_ts st
       = fold_left (fun acc i => <[i:=None]> acc) (st_test_statistics st)
           (ma_array esd_example)
    /\ (exists x,
           st_ts st !! idx = Some (Some x)
           /\ v == Qabs (x - population_mean (ma_compressed (st_ts st)))
                   / population_std (L := example_numeric) (ma_compressed (st_ts st)))
    /\ (forall j y,
           st_ts st !! j = Some (Some y) ->
           Qabs (y - population_mean (ma_compressed (st_ts st)))
             / population_std (L := example_numeric) (ma_compressed (st_ts st)) <= v).
Proof.
  let r := eval vm_compute in
    (esd_loop (L := example_numeric) (1 # 20) false (seq 0 1) (esd_init esd_example)) in
  match r with
  | Ok ?st =>
      let s := eval vm_compute in
        (calculate_test_statistic (L := example_numeric) (st_ts st) false) in
      match s with
      | Ok (?idx, Some ?v) => exists st, idx, v
      end
  end.
  split; [vm_compute; reflexivity|]. split; [vm_compute; reflexivity|].
  apply (esd_statistic_is_population_z_score (L := example_numeric)
           esd_example (1 # 20) 1).
  - vm_compute. reflexivity.
  - vm_compute. reflexivity.
Defined.

(** ** C4: the summary report *)

Lemma get_column_map {A B : Type} (f : A -> B) (name : string)
    (cols : list (string * A)) (c : A) :
  get_column name cols = Ok c ->
  get_column name (map (fun nc => (fst nc, f (snd nc))) cols) = Ok (f c).
Proof.
  induction cols as [|[n a] cols IH]; simpl; [discriminate|].
  destruct (String.eqb name n); [|exact IH].
  intros Hc. now inversion Hc.
Qed.

Lemma flagged_count_present (col : list cell) :
  List.length
    (List.filter (fun b : bool => b)
       (flat_map (fun c : cell => match c with Some b => [b] | None => [] end) col))
  = flagged_count col.
Proof.
  unfold flagged_count. induction col as [|[[|]|] col IH]; simpl; lia.
Qed.

Lemma present_all_boolean (col : list cell) :
  all_boolean col ->
  List.length
    (flat_map (fun c : cell => match c with Some b => [b] | None => [] end) col)
  = List.length col.
Proof.
  unfold all_boolean. induction 1 as [|[b|] col Hc _ IH]; simpl;
    [reflexivity | now rewrite IH | congruence].
Qed.

(** On a column of booleans the percentage is the flagged count over the
    number of rows, times one hundred. *)
Lemma column_mean_boolean (col : list cell) :
  all_boolean col -> col <> [] ->
  exists p, column_mean col = Some p
            /\ p * 100 == 100 * inject_Z (Z.of_nat (flagged_count col)) / Qlen col.
Proof.
  intros Hall Hne. unfold column_mean.
  pose proof (present_all_boolean col Hall) as Hlen.
  destruct (List.length (flat_map _ col)) as [|n] eqn:En.
  - destruct col; [congruence | discriminate].
  - eexists. split; [reflexivity|].
    unfold Qlen at 1. rewrite flagged_count_present. unfold Qlen. rewrite <- Hlen.
    assert (Hpos : 0 < inject_Z (Z.of_nat (S n))).
    { replace 0 with (inject_Z 0) by reflexivity. rewrite <- Zlt_Qlt. lia. }
    field. lra.
Qed.

(** With missing cells the mean runs over the cells that are present. *)
Lemma column_mean_skips_missing (col : list cell) (p : Q) :
  column_mean col = Some p ->
  p == inject_Z (Z.of_nat (flagged_count col))
       / inject_Z (Z.of_nat (List.length col)
                   - Z.of_nat (List.length (List.filter (fun c : cell => negb (bool_decide (c <> None))) col))).
Proof.
  unfold column_mean.
  assert (Hcount :
    (Z.of_nat (List.length col)
     - Z.of_nat (List.length
                   (List.filter (fun c : cell => negb (bool_decide (c <> None))) col)))%Z
    = Z.of_nat (List.length
                  (flat_map (fun c : cell => match c with Some b => [b] | None => [] end)
                     col))).
  { induction col as [|[b|] col IH]; simpl; lia. }
  rewrite Hcount.
  destruct (List.length (flat_map _ col)) as [|n]; [discriminate|].
  intros Hp. inversion Hp. unfold Qlen. rewrite flagged_count_present. reflexivity.
Qed.

(** C4 (at the failing input). On the single-column dataset with twelve
    values between 9 and 11 and two values 1000, with
    [max_anomalies = 3] and [alpha = 0.05], the Generalized ESD mask of
    the 14 rows flags 2 rows and has one missing cell; the summary entry
    of that column and method records the two flagged keys, and its
    percentage is 200/13, not 100 * 2/14. *)
Theorem summary_esd_percentage_skips_missing_cells :
  generalized_esd_column (L := example_numeric) two_extremes 3 (1 # 20) false
  = Ok [Some false; None; Some false; Some false; Some false; Some false;
        Some false; Some false; Some false; Some false; Some false; Some false;
        Some true; Some true]
  /\ exists report e p,
       summary (L := example_numeric) (M := example_models) (frame_of two_extremes)
         (3 # 2) 3 (FracStr "auto")
         {| max_anomalies := 3; alpha := 1 # 20; hybrid := false |} = Ok report
       /\ report_lookup "x" GEN_ESD report = Some e
       /\ INDEX e = [12; 13]%nat
       /\ percentage e = Some p
       /\ p == 200 # 13
       /\ ~ p == 100 * 2 / 14.
Proof.
  split; [vm_compute; reflexivity|].
  let r := eval vm_compute in
    (summary (L := example_numeric) (M := example_models) (frame_of two_extremes)
       (3 # 2) 3 (FracStr "auto")
       {| max_anomalies := 3; alpha := 1 # 20; hybrid := false |}) in
  match r with
  | Ok ?report =>
      exists report;
      let e := eval vm_compute in (report_lookup "x" GEN_ESD report) in
      match e with
      | Some ?e' =>
          exists e';
          let p := eval vm_compute in (percentage e') in
          match p with Some ?p' => exists p' end
      end
  end.
  repeat split; try (vm_compute; reflexivity).
  intros Heq. vm_compute in Heq. discriminate.
Qed.

(* ===================================================================== *)
(** * Further properties of the detectors *)
(* ===================================================================== *)

(** ** The iteration count that the Generalized ESD loop can serve *)

Section EsdDomain.
Context {L : NumericLib}.




End EsdDomain.


(** ** How many rows a Generalized ESD mask can mark *)

Lemma filter_length_indices {A : Type} (f : A -> bool) (d : A) (l : list A) :
  List.length (List.filter f l)
  = List.length (List.filter (fun j => f (nth j l d)) (seq 0 (List.length l))).
Proof.
  induction l as [|x l IH] using rev_ind; [reflexivity|].
  rewrite length_app. simpl List.length. rewrite Nat.add_1_r, seq_S. simpl.
  rewrite !List.filter_app, !length_app. f_equal.
  - rewrite IH. f_equal. apply filter_ext_in. intros j Hj.
    apply in_seq in Hj. assert (Hlt : (j < List.length l)%nat) by lia.
    now rewrite (app_nth1 l [x] d Hlt).
  - simpl. rewrite (app_nth2 l [x] d (le_n (List.length l))).
    rewrite Nat.sub_diag. simpl. now destruct (f x).
Qed.

Lemma marked_cells_bound (mask : list cell) (candidates : list nat) :
  (forall j, (j < List.length mask)%nat ->
             nth j mask (Some false) <> Some false -> In j candidates) ->
  (flagged_count mask + missing_count mask <= List.length candidates)%nat.
Proof.
  intros Hcand.
  set (marked := fun c : cell => match c with Some false => false | _ => true end).
  assert (Hsplit : (flagged_count mask + missing_count mask)%nat
                   = List.length (List.filter marked mask)).
  { clear Hcand. unfold flagged_count, missing_count.
    induction mask as [|[[|]|] mask IH]; simpl in *; lia. }
  rewrite Hsplit, (filter_length_indices marked (Some false)).
  apply NoDup_incl_length.
  - apply List.NoDup_filter. apply List.seq_NoDup.
  - intros j Hj. apply filter_In in Hj. destruct Hj as [Hj Hm].
    apply in_seq in Hj. apply Hcand; [lia|].
    intros Heq. rewrite Heq in Hm. discriminate.
Qed.

(** X2. The rows that a Generalized ESD column marks, as flagged or as
    missing, are candidates of the run: there are at most
    [max_anomalies] of them, and in particular at most [max_anomalies]
    rows are flagged. *)
Theorem esd_marks_at_most_max_anomalies {L : NumericLib} (ts : list Q)
    (max_anomalies : nat) (alpha : Q) (hybrid : bool) (mask : list cell) :
  generalized_esd_column ts max_anomalies alpha hybrid = Ok mask ->
  (flagged_count mask + missing_count mask <= max_anomalies)%nat.
Proof.
  intros Hmask.
  pose proof (generalized_esd_column_length _ _ _ _ _ Hmask) as Hlen.
  destruct (esd_column_cells _ _ _ _ _ Hmask) as (st & Hloop & Hcells).
  pose proof (esd_loop_length _ _ _ _ _ Hloop) as [_ Hstats].
  simpl in Hstats. rewrite length_seq in Hstats. rewrite <- Hstats.
  apply marked_cells_bound. intros j Hj Hmarked.
  rewrite Hlen in Hj. specialize (Hcells j Hj).
  rewrite nth_lookup, Hcells in Hmarked. simpl in Hmarked.
  apply list_elem_of_In.
  destruct (decide (j ∈ anomalous_indices st)) as [Ha | Ha].
  - unfold anomalous_indices in Ha.
    destruct (0 <? st_num_outliers st)%nat.
    + eapply subseteq_take. exact Ha.
    + now apply not_elem_of_nil in Ha.
  - destruct (decide (j ∈ st_test_statistics st)); [assumption | congruence].
Qed.

Lemma esd_marks_at_most_max_anomalies_witness :
  (flagged_count [Some false; None; Some false; Some false; Some false; Some false;
                  Some false; Some false; Some false; Some false; Some false;
                  Some false; Some true; Some true]
   + missing_count [Some false; None; Some false; Some false; Some false; Some false;
                    Some false; Some false; Some false; Some false; Some false;
                    Some false; Some true; Some true] <= 3)%nat.
Proof.
  apply (esd_marks_at_most_max_anomalies (L := example_numeric) two_extremes 3
           (1 # 20) false).
  vm_compute. reflexivity.
Defined.

(** ** Quartiles and the IQR detector *)

Lemma insert_sorted_length (x : Q) (l : list Q) :
  List.length (insert_sorted x l) = S (List.length l).
Proof.
  induction l as [|y l IH]; simpl; [reflexivity|].
  destruct (Qle_bool x y); simpl; [reflexivity | now rewrite IH].
Qed.

Lemma np_sort_length (l : list Q) : List.length (np_sort l) = List.length l.
Proof.
  induction l as [|x l IH]; simpl; [reflexivity|].
  now rewrite insert_sorted_length, IH.
Qed.

Lemma insert_sorted_In (x y : Q) (l : list Q) :
  In y (insert_sorted x l) -> y = x \/ In y l.
Proof.
  induction l as [|z l IH]; simpl.
  - intros [<- | []]. now left.
  - destruct (Qle_bool x z); simpl.
    + intros [<- | [<- | Hin]]; auto.
    + intros [<- | Hin]; [auto|]. destruct (IH Hin); auto.
Qed.

Lemma insert_sorted_sorted (x : Q) (l : list Q) :
  StronglySorted Qle l -> StronglySorted Qle (insert_sorted x l).
Proof.
  induction 1 as [|y l Hl IH Hy]; simpl.
  - constructor; constructor.
  - destruct (Qle_bool x y) eqn:E.
    + apply Qle_bool_iff in E. constructor; [now constructor|].
      constructor; [assumption|]. rewrite List.Forall_forall in Hy |- *.
      intros z Hz. specialize (Hy z Hz). lra.
    + assert (Hyx : y <= x).
      { apply Qlt_le_weak. apply Qnot_le_lt. intros Hle.
        apply Qle_bool_iff in Hle. congruence. }
      constructor; [assumption|]. rewrite List.Forall_forall in Hy |- *.
      intros z Hz. apply insert_sorted_In in Hz. destruct Hz as [-> | Hz]; auto.
Qed.

Lemma np_sort_sorted (l : list Q) : StronglySorted Qle (np_sort l).
Proof.
  induction l as [|x l IH]; simpl; [constructor | now apply insert_sorted_sorted].
Qed.

(** In a sorted array the order statistics grow with their rank. *)
Lemma sorted_nth_le (a : list Q) (i j : nat) :
  StronglySorted Qle a -> (i <= j)%nat -> (j < List.length a)%nat ->
  nth i a 0 <= nth j a 0.
Proof.
  intros Hs. revert i j. induction Hs as [|x a Ha IH Hx]; intros i j Hij Hj.
  - simpl in Hj. lia.
  - destruct i as [|i], j as [|j]; simpl in *; try lia.
    + lra.
    + rewrite List.Forall_forall in Hx. apply Hx. apply nth_In. lia.
    + apply IH; lia.
Qed.

Lemma last_nth (a : list Q) : List.last a 0 = nth (List.length a - 1) a 0.
Proof.
  induction a as [|x a IH]; [reflexivity|].
  destruct a as [|y a]; [reflexivity|].
  change (List.last (x :: y :: a) 0) with (List.last (y :: a) 0). rewrite IH.
  simpl. now rewrite Nat.sub_0_r.
Qed.

(** The position that [np_quantile] interpolates from. *)
Lemma quantile_interpolation_bounds (a : list Q) (virtual : Q) (n1 : nat) :
  StronglySorted Qle a -> List.length a = S n1 ->
  0 <= virtual -> virtual < inject_Z (Z.of_nat n1) ->
  let previous := Z.to_nat (Qfloor virtual) in
  let gamma := virtual - inject_Z (Qfloor virtual) in
  (previous < n1)%nat /\ 0 <= gamma /\ gamma < 1
  /\ inject_Z (Z.of_nat previous) == inject_Z (Qfloor virtual)
  /\ nth previous a 0 <= nth (S previous) a 0.
Proof.
  intros Hs Hlen H0 Hlt. cbv zeta.
  pose proof (Qfloor_le virtual) as Hfl. pose proof (Qlt_floor virtual) as Hfu.
  assert (Hf0 : (0 <= Qfloor virtual)%Z).
  { change 0%Z with (Qfloor 0). now apply Qfloor_resp_le. }
  assert (Hfn : (Qfloor virtual < Z.of_nat n1)%Z).
  { rewrite Zlt_Qlt. lra. }
  rewrite inject_Z_plus in Hfu. change (inject_Z 1) with 1 in Hfu.
  repeat split; try lra.
  - lia.
  - now rewrite Z2Nat.id.
  - apply sorted_nth_le; [assumption | lia | lia].
Qed.

(** The two ways in which [np_quantile] answers for a level [q >= 0]. *)
Lemma np_quantile_cases (ts : list Q) (q a : Q) (n1 : nat) :
  List.length ts = S n1 -> 0 <= q ->
  np_quantile ts q = Ok a ->
  (inject_Z (Z.of_nat n1) <= inject_Z (Z.of_nat n1) * q
   /\ a = List.last (np_sort ts) 0)
  \/ (inject_Z (Z.of_nat n1) * q < inject_Z (Z.of_nat n1)
      /\ a = nth (Z.to_nat (Qfloor (inject_Z (Z.of_nat n1) * q))) (np_sort ts) 0
             + (nth (S (Z.to_nat (Qfloor (inject_Z (Z.of_nat n1) * q)))) (np_sort ts) 0
                - nth (Z.to_nat (Qfloor (inject_Z (Z.of_nat n1) * q))) (np_sort ts) 0)
               * (inject_Z (Z.of_nat n1) * q
                  - inject_Z (Qfloor (inject_Z (Z.of_nat n1) * q)))).
Proof.
  intros Hlen Hq. unfold np_quantile. rewrite Hlen.
  assert (HN : 0 <= inject_Z (Z.of_nat n1)).
  { replace 0 with (inject_Z 0) by reflexivity. rewrite <- Zle_Qle. lia. }
  assert (Hneg : Qltb (inject_Z (Z.of_nat n1) * q) 0 = false).
  { apply Qltb_ge. now apply Qmult_le_0_compat. }
  destruct (Qle_bool (inject_Z (Z.of_nat n1)) (inject_Z (Z.of_nat n1) * q)) eqn:E.
  - intros Ha. left. split; [now apply Qle_bool_iff | congruence].
  - rewrite Hneg. intros Ha. right. split; [|congruence].
    apply Qnot_le_lt. intros Hle. apply Qle_bool_iff in Hle. congruence.
Qed.

(** [np_quantile] grows with the level. *)
Lemma np_quantile_monotone (ts : list Q) (q q' a b : Q) :
  0 <= q -> q <= q' ->
  np_quantile ts q = Ok a -> np_quantile ts q' = Ok b -> a <= b.
Proof.
  intros Hq Hqq Ha Hb.
  pose proof (np_sort_sorted ts) as Hs. pose proof (np_sort_length ts) as Hlen.
  destruct (List.length ts) as [|n1] eqn:En.
  { unfold np_quantile in Ha. rewrite En in Ha. discriminate. }
  assert (Hq' : 0 <= q') by lra.
  pose proof (np_quantile_cases ts q a n1 En Hq Ha) as Ca.
  pose proof (np_quantile_cases ts q' b n1 En Hq' Hb) as Cb.
  clear Ha Hb.
  remember (inject_Z (Z.of_nat n1)) as N eqn:HNdef.
  assert (HN : 0 <= N).
  { subst N. replace 0 with (inject_Z 0) by reflexivity. rewrite <- Zle_Qle. lia. }
  assert (Hv0 : 0 <= N * q) by (apply Qmult_le_0_compat; assumption).
  assert (Hv0' : 0 <= N * q') by (apply Qmult_le_0_compat; lra).
  assert (Hvv : N * q <= N * q').
  { rewrite !(Qmult_comm N). apply Qmult_le_compat_r; assumption. }
  assert (Hlast : forall i, (i <= n1)%nat -> nth i (np_sort ts) 0 <= List.last (np_sort ts) 0).
  { intros i Hi. rewrite last_nth, Hlen. simpl. rewrite Nat.sub_0_r.
    apply sorted_nth_le; [assumption | lia | lia]. }
  assert (Hbounds : forall v, 0 <= v -> v < N ->
            (Z.to_nat (Qfloor v) < n1)%nat
            /\ 0 <= v - inject_Z (Qfloor v) /\ v - inject_Z (Qfloor v) < 1
            /\ nth (Z.to_nat (Qfloor v)) (np_sort ts) 0
               <= nth (S (Z.to_nat (Qfloor v))) (np_sort ts) 0).
  { intros v H0 Hlt. rewrite HNdef in Hlt.
    destruct (quantile_interpolation_bounds (np_sort ts) v n1 Hs Hlen H0 Hlt)
      as (H1 & H2 & H3 & _ & H5). auto. }
  destruct Cb as [[_ ->] | [Hlt' ->]].
  - (* the upper level reaches the last order statistic *)
    destruct Ca as [[_ ->] | [Hlt ->]]; [lra|].
    destruct (Hbounds (N * q) Hv0 Hlt) as (Hp & Hg0 & Hg1 & Hlohi).
    pose proof (Hlast (S (Z.to_nat (Qfloor (N * q)))) ltac:(lia)) as Hhi.
    set (lo := nth (Z.to_nat (Qfloor (N * q))) (np_sort ts) 0) in *.
    set (hi := nth (S (Z.to_nat (Qfloor (N * q)))) (np_sort ts) 0) in *.
    set (g := N * q - inject_Z (Qfloor (N * q))) in *.
    set (z := List.last (np_sort ts) 0) in *.
    clearbody lo hi g z. nra.
  - destruct Ca as [[Hge _] | [Hlt ->]]; [lra|].
    destruct (Hbounds (N * q) Hv0 Hlt) as (Hp & Hg0 & Hg1 & Hlohi).
    destruct (Hbounds (N * q') Hv0' Hlt') as (Hp' & Hg0' & Hg1' & Hlohi').
    assert (Hfloor : (Qfloor (N * q) <= Qfloor (N * q'))%Z)
      by now apply Qfloor_resp_le.
    destruct (Z.eq_dec (Qfloor (N * q)) (Qfloor (N * q'))) as [Heq | Hne].
    + rewrite <- Heq in *.
      assert (Hgg : N * q - inject_Z (Qfloor (N * q))
                    <= N * q' - inject_Z (Qfloor (N * q))) by lra.
      set (lo := nth (Z.to_nat (Qfloor (N * q))) (np_sort ts) 0) in *.
      set (hi := nth (S (Z.to_nat (Qfloor (N * q)))) (np_sort ts) 0) in *.
      set (g := N * q - inject_Z (Qfloor (N * q))) in *.
      set (g' := N * q' - inject_Z (Qfloor (N * q))) in *.
      clearbody lo hi g g'. nra.
    + assert (Hmid : nth (S (Z.to_nat (Qfloor (N * q)))) (np_sort ts) 0
                     <= nth (Z.to_nat (Qfloor (N * q'))) (np_sort ts) 0).
      { assert (Hf0 : (0 <= Qfloor (N * q))%Z).
        { change 0%Z with (Qfloor 0). now apply Qfloor_resp_le. }
        apply sorted_nth_le; [assumption | lia | lia]. }
      set (lo := nth (Z.to_nat (Qfloor (N * q))) (np_sort ts) 0) in *.
      set (hi := nth (S (Z.to_nat (Qfloor (N * q)))) (np_sort ts) 0) in *.
      set (lo' := nth (Z.to_nat (Qfloor (N * q'))) (np_sort ts) 0) in *.
      set (hi' := nth (S (Z.to_nat (Qfloor (N * q')))) (np_sort ts) 0) in *.
      set (g := N * q - inject_Z (Qfloor (N * q))) in *.
      set (g' := N * q' - inject_Z (Qfloor (N * q'))) in *.
      clearbody lo hi lo' hi' g g'. nra.
Qed.

Lemma iqr_mask_inv (k : Q) (ts : list Q) (mask : list bool) :
  iqr_mask k ts = Ok mask ->
  exists q1 q3,
    np_quantile ts (1 # 4) = Ok q1
    /\ np_quantile ts (3 # 4) = Ok q3
    /\ mask = map (fun v => Qgtb v (q3 + k * (q3 - q1)) || Qltb v (q1 - k * (q3 - q1))) ts.
Proof.
  unfold iqr_mask.
  destruct (np_quantile ts (1 # 4)) as [q1|]; cbn [bind]; [|discriminate].
  destruct (np_quantile ts (1 # 2)) as [q2|]; cbn [bind]; [|discriminate].
  destruct (np_quantile ts (3 # 4)) as [q3|]; cbn [bind]; [|discriminate].
  intros Hm. injection Hm as <-. exists q1, q3. repeat split.
Qed.

(** X5. The quartiles that the IQR detector computes are ordered, so with a
    multiple [k >= 0] its two bounds enclose the interquartile range: a
    value between the first and the third quartile is never flagged. *)
Theorem iqr_keeps_interquartile_values (k : Q) (ts : list Q) (mask : list bool) :
  0 <= k ->
  iqr_mask k ts = Ok mask ->
  exists q1 q3,
    np_quantile ts (1 # 4) = Ok q1
    /\ np_quantile ts (3 # 4) = Ok q3
    /\ q1 <= q3
    /\ forall i v, ts !! i = Some v -> q1 <= v -> v <= q3 -> mask !! i = Some false.
Proof.
  intros Hk Hmask. destruct (iqr_mask_inv k ts mask Hmask) as (q1 & q3 & H1 & H3 & ->).
  exists q1, q3.
  assert (Hord : q1 <= q3).
  { apply (np_quantile_monotone ts (1 # 4) (3 # 4) q1 q3); try assumption.
    - vm_compute. discriminate.
    - vm_compute. discriminate. }
  repeat split; try assumption.
  intros i v Hv Hlo Hhi. rewrite list_lookup_fmap, Hv. simpl. f_equal.
  assert (Hiqr : 0 <= k * (q3 - q1)) by (apply Qmult_le_0_compat; lra).
  apply orb_false_iff. unfold Qgtb. rewrite !Qltb_ge. split; lra.
Qed.

Lemma iqr_keeps_interquartile_values_witness :
  exists q1 q3,
    np_quantile [1; 2; 3; 4; 100] (1 # 4) = Ok q1
    /\ np_quantile [1; 2; 3; 4; 100] (3 # 4) = Ok q3
    /\ q1 <= q3
    /\ forall i v,
         [1; 2; 3; 4; 100] !! i = Some v -> q1 <= v -> v <= q3 ->
         [false; false; false; false; true] !! i = Some false.
Proof.
  apply (iqr_keeps_interquartile_values (3 # 2) [1; 2; 3; 4; 100]).
  - vm_compute. discriminate.
  - vm_compute. reflexivity.
Defined.



(** ** The candidate of a Generalized ESD iteration *)

Lemma argmax_from_all_masked (best_idx i : nat) (l : marray) :
  Forall (fun c => c = None) l -> argmax_from best_idx None i l = best_idx.
Proof.
  intros Hall. revert i. induction Hall as [|c l Hc _ IH]; intros i; simpl.
  - reflexivity.
  - subst c. simpl. apply IH.
Qed.

(** [argmax] of scores none of which is defined is position 0. *)
Lemma np_argmax_undefined (scores : marray) (r : nat) :
  np_argmax scores = Ok r -> nth r scores None = None -> r = 0%nat.
Proof.
  intros Hr Hnone. pose proof (np_argmax_spec scores r Hr) as [_ Hmax].
  assert (Hall : Forall (fun c => c = None) scores).
  { apply List.Forall_forall. intros c Hc.
    destruct (In_nth scores c None Hc) as (j & Hj & <-).
    specialize (Hmax j Hj). rewrite Hnone in Hmax.
    destruct (nth j scores None); [discriminate | reflexivity]. }
  destruct scores as [|x l]; [discriminate|]. simpl in Hr. injection Hr as <-.
  inversion Hall as [|? ? Hx Hl]; subst. now apply argmax_from_all_masked.
Qed.

Section EsdCandidates.
Context {L : NumericLib}.

(** Both modes compute scores of the form [|(ts - s1) / s2|]. *)
Lemma calculate_test_statistic_scores (ts : marray) (hybrid : bool) :
  exists s1 s2,
    calculate_test_statistic ts hybrid
    = (max_idx <- np_argmax (ma_abs (ma_div_scalar (ma_sub_scalar ts s1) s2)) ;;
       Ok (max_idx, nth max_idx (ma_abs (ma_div_scalar (ma_sub_scalar ts s1) s2)) None)).
Proof.
  unfold calculate_test_statistic. destruct hybrid; eexists; eexists; reflexivity.
Qed.

Lemma defined_statistic_active (ts : marray) (hybrid : bool) (idx : nat) (v : Q) :
  calculate_test_statistic ts hybrid = Ok (idx, Some v) ->
  (exists x, ts !! idx = Some (Some x)) /\ 0 <= v.
Proof.
  destruct (calculate_test_statistic_scores ts hybrid) as (s1 & s2 & ->).
  destruct (np_argmax _) as [r|e]; cbn [bind]; [|discriminate].
  intros Hstat. injection Hstat as -> Hv. rewrite scores_nth in Hv.
  destruct (ts !! idx) as [[x|]|]; try discriminate.
  destruct s1 as [m|]; try discriminate. destruct s2 as [d|]; try discriminate.
  destruct (Qeqb d 0); [discriminate|].
  assert (Hv' : Qabs ((x - m) / d) = v) by congruence. rewrite <- Hv'.
  split; [eauto | apply Qabs_nonneg].
Qed.

(** X7. While the statistic is defined, the masked working copy does its
    job: the candidate is a row of the column that no earlier iteration
    selected, and its statistic is not negative. *)
Theorem esd_defined_statistic_selects_fresh_row (ts : list Q) (alpha : Q)
    (hybrid : bool) (k : nat) (st : esd_state) (idx : nat) (v : Q) :
  esd_loop alpha hybrid (seq 0 k) (esd_init ts) = Ok st ->
  calculate_test_statistic (st_ts st) hybrid = Ok (idx, Some v) ->
  (idx ∉ st_test_statistics st) /\ (exists x, ts !! idx = Some x) /\ 0 <= v.
Proof.
  intros Hloop Hstat.
  destruct (defined_statistic_active _ _ _ _ Hstat) as [[x Hx] Hv].
  rewrite (esd_run_masks _ _ _ _ _ Hloop), masked_positions_lookup in Hx.
  destruct (decide (idx ∈ st_test_statistics st)) as [Hin | Hnin].
  - destruct (decide (idx < List.length (ma_array ts))%nat); discriminate.
  - repeat split; try assumption.
    unfold ma_array in Hx. rewrite list_lookup_fmap in Hx.
    destruct (ts !! idx) as [y|]; [eauto | discriminate].
Qed.

(** X8. An iteration whose statistic is undefined (no active value, or a
    zero deviation) takes row 0 as its candidate, whether or not that row
    is still active, and cannot confirm anything. *)
Theorem esd_undefined_statistic_selects_row_zero (alpha : Q) (hybrid : bool)
    (st st' : esd_state) (curr idx : nat) :
  esd_step alpha hybrid st curr = Ok st' ->
  calculate_test_statistic (st_ts st) hybrid = Ok (idx, None) ->
  idx = 0%nat
  /\ st_ts st' = <[0%nat := None]> (st_ts st)
  /\ st_test_statistics st' = st_test_statistics st ++ [0%nat]
  /\ st_num_outliers st' = st_num_outliers st.
Proof.
  intros Hstep Hstat.
  assert (Hidx : idx = 0%nat).
  { destruct (calculate_test_statistic_scores (st_ts st) hybrid) as (s1 & s2 & Heq).
    rewrite Heq in Hstat.
    destruct (np_argmax _) as [r|e] eqn:Er; cbn [bind] in Hstat; [|discriminate].
    injection Hstat as -> Hnone. now apply (np_argmax_undefined _ _ Er). }
  subst idx. apply esd_step_inv in Hstep.
  destruct Hstep as (stat & c & Hstat' & _ & Hts & Hstats & Hnum).
  rewrite Hstat in Hstat'. injection Hstat' as <-. simpl in *.
  repeat split; assumption.
Qed.
End EsdCandidates.

Lemma esd_defined_statistic_selects_fresh_row_witness :
  (1%nat ∉ [6%nat]) /\ (exists x, esd_example !! 1%nat = Some x)
  /\ 0 <= 6000000 # 4898982.
Proof.
  apply (esd_defined_statistic_selects_fresh_row (L := example_numeric)
           esd_example (1 # 20) false 1
           {| st_ts := [Some 10; Some 11; Some 9; Some 10; Some 11; Some 9; None];
              st_test_statistics := [6%nat];
              st_num_outliers := 0 |}).
  - vm_compute. reflexivity.
  - vm_compute. reflexivity.
Defined.

Lemma esd_undefined_statistic_selects_row_zero_witness :
  0%nat = 0%nat
  /\ [None; Some 5; Some 5] = <[0%nat := None]> [None; Some 5; Some 5]
  /\ [0%nat; 0%nat] = [0%nat] ++ [0%nat]
  /\ 0%nat = 0%nat.
Proof.
  apply (esd_undefined_statistic_selects_row_zero (L := example_numeric)
           (1 # 20) false
           {| st_ts := [None; Some 5; Some 5];
              st_test_statistics := [0%nat];
              st_num_outliers := 0 |}
           {| st_ts := [None; Some 5; Some 5];
              st_test_statistics := [0%nat; 0%nat];
              st_num_outliers := 0 |} 1 0).
  - vm_compute. reflexivity.
  - vm_compute. reflexivity.
Defined.

(** ** The entries of the summary *)





(** ** The summary as a composition of the detectors *)

Lemma column_loop_names (body : list Q -> result (list cell))
    (cols : list (string * list Q)) (r : list (string * list cell)) :
  column_loop body cols = Ok r -> map fst r = map fst cols.
Proof.
  revert r. induction cols as [|[name ts] cols IH]; intros r; simpl.
  - intros Hr. now injection Hr as <-.
  - destruct (body ts) as [m|e]; cbn [bind]; [|discriminate].
    destruct (column_loop body cols) as [rest|e]; cbn [bind]; [|discriminate].
    intros Hr. injection Hr as <-. simpl. f_equal. now apply IH.
Qed.

Lemma isolation_forest_loop_names {L : NumericLib} {M : ModelLib} (n_rows : nat)
    (f : fraction) (cols : list (string * list Q)) (kwargs : gmap string kwval)
    (r : list (string * list cell)) :
  isolation_forest_loop n_rows f kwargs cols = Ok r -> map fst r = map fst cols.
Proof.
  revert kwargs r. induction cols as [|[name ts] cols IH]; intros kwargs r; simpl.
  - intros Hr. now injection Hr as <-.
  - destruct (isolation_forest_column n_rows f kwargs ts) as [[kw m]|e];
      cbn [bind]; [|discriminate].
    destruct (isolation_forest_loop n_rows f _ cols) as [rest|e] eqn:Er;
      cbn [bind]; [|discriminate].
    intros Hr. injection Hr as <-. simpl. f_equal. now apply (IH _ _ Er).
Qed.

Lemma get_column_present {A : Type} (name : string) (cols : list (string * A)) :
  In name (map fst cols) -> exists c, get_column name cols = Ok c.
Proof.
  induction cols as [|[n a] cols IH]; simpl; [contradiction|].
  destruct (String.eqb name n) eqn:E; [eauto|].
  intros [Heq | Hin]; [|now apply IH].
  subst n. rewrite String.eqb_refl in E. discriminate.
Qed.

Lemma summary_entry_ok {K : Type} (outliers : MaskFrame K) (name : string) :
  In name (map fst (mask_columns outliers)) ->
  exists e, summary_entry outliers name = Ok e.
Proof.
  intros Hin. destruct (get_column_present name _ Hin) as [c Hc].
  unfold summary_entry, percentage_outliers, flagged_keys.
  rewrite (get_column_map
             (fun c => option_map (fun m : Q => m * 100) (column_mean c))
             name (mask_columns outliers) c Hc).
  rewrite Hc. cbn [bind]. eauto.
Qed.

Lemma summary_loop_report {K : Type} (o_iqr o_sd o_iso o_esd : MaskFrame K)
    (cols : list (string * list Q)) :
  NoDup (map fst cols) ->
  (forall name m, In name (map fst cols) ->
     In name (map fst (mask_columns (method_mask o_iqr o_sd o_iso o_esd m)))) ->
  exists report,
    summary_loop o_iqr o_sd o_iso o_esd cols = Ok report
    /\ List.length report = (4 * List.length cols)%nat
    /\ forall name m, In name (map fst cols) ->
         exists e,
           report_lookup name m report = Some e
           /\ summary_entry (method_mask o_iqr o_sd o_iso o_esd m) name = Ok e.
Proof.
  induction cols as [|[col ts] cols IH]; intros Hnd Hnames.
  - exists []. repeat split. intros name m [].
  - inversion Hnd as [|? ? Hnotin Hnd']; subst.
    destruct IH as (rest & Hrest & Hlen & Hlookup); [assumption | |].
    { intros name m Hin. apply Hnames. now right. }
    destruct (summary_entry_ok o_iqr col (Hnames col IQR (or_introl eq_refl)))
      as [e1 H1].
    destruct (summary_entry_ok o_sd col (Hnames col STD (or_introl eq_refl)))
      as [e2 H2].
    destruct (summary_entry_ok o_iso col (Hnames col ISO_FOREST (or_introl eq_refl)))
      as [e3 H3].
    destruct (summary_entry_ok o_esd col (Hnames col GEN_ESD (or_introl eq_refl)))
      as [e4 H4].
    cbn [summary_loop]. rewrite H1, H2, H3, H4, Hrest. cbn [bind].
    eexists. split; [reflexivity|]. split; [simpl; lia|].
    intros name m [Heq | Hin].
    + simpl in Heq. subst name. cbn [report_lookup]. rewrite String.eqb_refl.
      destruct m; simpl; eauto.
    + assert (Hne : String.eqb name col = false).
      { apply String.eqb_neq. intros ->. apply Hnotin. now apply list_elem_of_In. }
      cbn [report_lookup]. rewrite Hne. simpl. now apply Hlookup.
Qed.

(** X10. [summary] is the composition of the four detectors: when the three
    detectors that can raise succeed on a well-formed input, the final
    loop cannot raise, and the report has four entries for every numeric
    column, each being the two cells computed from the mask of its
    method. *)
Theorem summary_reports_every_column_and_method {L : NumericLib} {M : ModelLib}
    {K : Type} (df : DataFrame K) (iqr_multiple sd_multiple : Q) (f : fraction)
    (cfg : esd_config) (o_iqr o_iso o_esd : MaskFrame K) :
  wf_frame df ->
  detect_outlier_iqr df iqr_multiple = Ok o_iqr ->
  detect_outlier_isolation_forest df f ∅ = Ok o_iso ->
  detect_outlier_generalized_esd df (max_anomalies cfg) (alpha cfg) (hybrid cfg)
  = Ok o_esd ->
  exists report,
    summary df iqr_multiple sd_multiple f cfg = Ok report
    /\ List.length report = (4 * List.length (numeric_cols df))%nat
    /\ forall name ts m,
         In (name, Numeric ts) (columns df) ->
         exists e,
           report_lookup name m report = Some e
           /\ summary_entry
                (method_mask o_iqr (detect_outlier_sd df sd_multiple) o_iso o_esd m)
                name = Ok e.
Proof.
  intros Hwf Hiqr Hiso Hesd. unfold summary. rewrite Hiqr, Hiso, Hesd. cbn [bind].
  destruct (summary_loop_report o_iqr (detect_outlier_sd df sd_multiple) o_iso o_esd
              (numeric_cols df)) as (report & Hrep & Hlen & Hlookup).
  - apply numeric_cols_NoDup. apply Hwf.
  - intros name m Hin.
    assert (Hiqr_names : map fst (mask_columns o_iqr) = map fst (numeric_cols df)).
    { unfold detect_outlier_iqr, column_wise_raising in Hiqr.
      destruct (column_loop _ _) as [cols|e] eqn:Ec; cbn [bind] in Hiqr; [|discriminate].
      injection Hiqr as <-. simpl. now apply column_loop_names in Ec. }
    assert (Hesd_names : map fst (mask_columns o_esd) = map fst (numeric_cols df)).
    { unfold detect_outlier_generalized_esd, column_wise_raising in Hesd.
      destruct (column_loop _ _) as [cols|e] eqn:Ec; cbn [bind] in Hesd; [|discriminate].
      injection Hesd as <-. simpl. now apply column_loop_names in Ec. }
    assert (Hiso_names : map fst (mask_columns o_iso) = map fst (numeric_cols df)).
    { unfold detect_outlier_isolation_forest in Hiso.
      destruct (check_outlier_fraction f); cbn [bind] in Hiso; [|discriminate].
      destruct (isolation_forest_loop _ _ _ _) as [cols|e] eqn:Ec;
        cbn [bind] in Hiso; [|discriminate].
      injection Hiso as <-. simpl. now apply isolation_forest_loop_names in Ec. }
    destruct m; simpl; rewrite ?Hiqr_names, ?Hesd_names, ?Hiso_names; try assumption.
    unfold column_wise; simpl. now rewrite map_map.
  - exists report. repeat split; try assumption.
    intros name ts m Hin. apply Hlookup. apply in_map_iff.
    exists (name, ts). split; [reflexivity|]. now apply numeric_cols_In.
Qed.

Lemma summary_reports_every_column_and_method_witness :
  exists report,
    summary (L := example_numeric) (M := example_models) (frame_of two_extremes)
      (3 # 2) 3 (FracStr "auto")
      {| max_anomalies := 3; alpha := 1 # 20; hybrid := false |} = Ok report
    /\ List.length report = (4 * List.length (numeric_cols (frame_of two_extremes)))%nat
    /\ forall name ts m,
         In (name, Numeric ts) (columns (frame_of two_extremes)) ->
         exists e,
           report_lookup name m report = Some e
           /\ summary_entry
                (method_mask
                   {| mask_index := index (frame_of two_extremes);
                      mask_columns :=
                        [("x"%string,
                          map Some [false; false; false; false; false; false; false;
                                    false; false; false; false; false; true; true])] |}
                   (detect_outlier_sd (L := example_numeric) (frame_of two_extremes) 3)
                   {| mask_index := index (frame_of two_extremes);
                      mask_columns :=
                        [("x"%string,
                          map Some [false; false; false; false; false; false; false;
                                    false; false; false; false; false; true; true])] |}
                   {| mask_index := index (frame_of two_extremes);
                      mask_columns :=
                        [("x"%string,
                          [Some false; None; Some false; Some false; Some false;
                           Some false; Some false; Some false; Some false; Some false;
                           Some false; Some false; Some true; Some true])] |}
                   m)
                name = Ok e.
Proof.
  apply (summary_reports_every_column_and_method (L := example_numeric)
           (M := example_models) (frame_of two_extremes) (3 # 2) 3 (FracStr "auto")
           {| max_anomalies := 3; alpha := 1 # 20; hybrid := false |}).
  - split.
    + repeat constructor.
    + repeat constructor. simpl. intros Hin. inversion Hin.
  - vm_compute. reflexivity.
  - vm_compute. reflexivity.
  - vm_compute. reflexivity.
Defined.

(* ===================================================================== *)
(** * When the Generalized ESD detector flags a row *)
(* ===================================================================== *)

Section EsdFlagging.
Context {L : NumericLib}.

(** X12. The detector flags some row exactly when a test passes at an
    iteration after the first one. A pass at iteration 0 alone leaves
    [num_outliers] at zero and flags nothing, so a column with a single
    outlier is never reported. *)
Theorem esd_flags_iff_later_test_passes (ts : list Q) (max_anomalies : nat)
    (alpha : Q) (hybrid : bool) (mask : list cell) :
  generalized_esd_column ts max_anomalies alpha hybrid = Ok mask ->
  (exists j, mask !! j = Some (Some true))
  <-> exists i, (0 < i < max_anomalies)%nat /\ test_passes alpha hybrid ts i.
Proof.
  intros Hmask.
  destruct (esd_column_cells _ _ _ _ _ Hmask) as (st & Hloop & _).
  pose proof (esd_later_pass_flags_prefix _ _ _ _ _ _ Hmask Hloop) as Hprefix.
  destruct (esd_loop_num_outliers _ _ _ _ _ Hloop) as [Hnone Hpass].
  split.
  - intros [j Hj]. apply Hprefix in Hj. destruct Hj as [Hpos _].
    exists (st_num_outliers st).
    destruct Hpass as [Hp Hlt]; [lia|]. split; [lia | assumption].
  - intros (i & Hi & Hp).
    assert (Hge : (i <= st_num_outliers st)%nat).
    { destruct (le_lt_dec i (st_num_outliers st)) as [Hle | Hlt]; [assumption|].
      exfalso. apply (Hnone i); [lia | assumption]. }
    pose proof (esd_loop_length _ _ _ _ _ Hloop) as [_ Hstats].
    simpl in Hstats. rewrite length_seq in Hstats.
    destruct (st_test_statistics st) as [|j0 rest] eqn:Es; [simpl in Hstats; lia|].
    exists j0. apply Hprefix. split; [lia|].
    rewrite Nat.add_1_r. cbn [firstn]. apply elem_of_cons. now left.
Qed.
End EsdFlagging.

Lemma esd_flags_iff_later_test_passes_witness :
  (exists j,
      [Some false; None; Some false; Some false; Some false; Some false; Some false;
       Some false; Some false; Some false; Some false; Some false; Some true;
       Some true] !! j = Some (Some true))
  <-> exists i, (0 < i < 3)%nat
                /\ test_passes (L := example_numeric) (1 # 20) false two_extremes i.
Proof.
  apply (esd_flags_iff_later_test_passes (L := example_numeric) two_extremes 3
           (1 # 20) false).
  vm_compute. reflexivity.
Defined.

(* ===================================================================== *)
(** * Shape of the boolean masks *)
(* ===================================================================== *)

Lemma Forall_both {A : Type} (P Q' : A -> Prop) (l : list A) :
  Forall (fun x => P x /\ Q' x) l -> Forall P l /\ Forall Q' l.
Proof.
  induction 1 as [|x l [Hp Hq] _ [IHp IHq]]; split; constructor; assumption.
Qed.

(** X13. The masks of the SD, the IQR and the isolation-forest detector line
    up with the frame they were computed from (same row keys, one column
    per numeric column under its name, one cell per row) and hold
    booleans only: they can index the frame directly. *)
Theorem boolean_detector_masks_align {L : NumericLib} {M : ModelLib} {K : Type}
    (df : DataFrame K) (sd_multiple iqr_multiple : Q) (f : fraction)
    (kwargs : gmap string kwval) (o_iqr o_iso : MaskFrame K) :
  wf_frame df ->
  detect_outlier_iqr df iqr_multiple = Ok o_iqr ->
  detect_outlier_isolation_forest df f kwargs = Ok o_iso ->
  Forall (fun o => mask_aligned df o /\ mask_boolean o)
         [detect_outlier_sd df sd_multiple; o_iqr; o_iso].
Proof.
  intros Hwf Hiqr Hiso. unfold mask_aligned, mask_boolean.
  destruct (detect_outlier_sd_shape df sd_multiple Hwf) as [Hsd_idx Hsd].
  destruct (detect_outlier_iqr_shape df iqr_multiple o_iqr Hwf Hiqr)
    as [Hiqr_idx Hiqr_cols].
  destruct (detect_outlier_isolation_forest_shape df f kwargs o_iso Hiso)
    as [Hiso_idx Hiso_cols].
  apply Forall_both in Hsd, Hiqr_cols, Hiso_cols.
  repeat constructor; try tauto.
  - unfold detect_outlier_sd, column_wise; simpl. now rewrite map_map.
  - unfold detect_outlier_iqr, column_wise_raising in Hiqr.
    destruct (column_loop _ _) as [cols|e] eqn:Ec; cbn [bind] in Hiqr; [|discriminate].
    injection Hiqr as <-. simpl. now apply column_loop_names in Ec.
  - unfold detect_outlier_isolation_forest in Hiso.
    destruct (check_outlier_fraction f); cbn [bind] in Hiso; [|discriminate].
    destruct (isolation_forest_loop _ _ _ _) as [cols|e] eqn:Ec;
      cbn [bind] in Hiso; [|discriminate].
    injection Hiso as <-. simpl. now apply isolation_forest_loop_names in Ec.
Qed.

Lemma boolean_detector_masks_align_witness :
  Forall (fun o => mask_aligned (frame_of esd_example) o /\ mask_boolean o)
         [detect_outlier_sd (L := example_numeric) (frame_of esd_example) 2;
          {| mask_index := index (frame_of esd_example);
             mask_columns :=
               [("x"%string,
                 map Some [false; false; false; false; false; false; true])] |};
          {| mask_index := index (frame_of esd_example);
             mask_columns :=
               [("x"%string,
                 map Some [false; false; false; false; false; false; true])] |}].
Proof.
  apply (boolean_detector_masks_align (L := example_numeric) (M := example_models)
           (frame_of esd_example) 2 (3 # 2) (FracNum (1 # 10)) ∅).
  - split.
    + repeat constructor.
    + repeat constructor. simpl. intros Hin. inversion Hin.
  - vm_compute. reflexivity.
  - vm_compute. reflexivity.
Defined.

(* ===================================================================== *)
(** * Properties of the optimizer loop *)
(* ===================================================================== *)

Lemma coerce_int_params_keeps_int (int_params : list string)
    (next_point coerced : gmap string pvalue) (p : string) (z : Z) :
  next_point !! p = Some (PInt z) ->
  coerce_int_params int_params next_point = Ok coerced ->
  exists z', coerced !! p = Some (PInt z').
Proof.
  revert next_point z. induction int_params as [|p0 ips IH]; intros pt z Hp; simpl.
  - intros Hc. injection Hc as <-. eauto.
  - destruct (pt !! p0) as [v0|] eqn:E0; [|discriminate].
    destruct (decide (p = p0)) as [-> | Hne].
    + apply (IH _ (py_int v0)). apply lookup_insert_eq.
    + apply (IH _ z). now rewrite lookup_insert_ne by congruence.
Qed.

Lemma coerce_int_params_ints (int_params : list string)
    (next_point coerced : gmap string pvalue) :
  coerce_int_params int_params next_point = Ok coerced ->
  forall p, In p int_params -> exists z, coerced !! p = Some (PInt z).
Proof.
  revert next_point. induction int_params as [|p0 ips IH]; intros pt; simpl.
  - intros _ p [].
  - destruct (pt !! p0) as [v0|] eqn:E0; [|discriminate].
    intros Hc p [<- | Hp].
    + apply (coerce_int_params_keeps_int ips (<[p0:=PInt (py_int v0)]> pt) coerced
               p0 (py_int v0)); [apply lookup_insert_eq | assumption].
    + now apply (IH _ Hc).
Qed.

Lemma coerce_int_params_missing (int_params : list string)
    (next_point : gmap string pvalue) (p : string) :
  In p int_params ->
  next_point !! p = None ->
  coerce_int_params int_params next_point = Raise KeyError.
Proof.
  revert next_point. induction int_params as [|p0 ips IH]; intros pt; simpl.
  - intros [].
  - intros Hin Hnone. destruct (pt !! p0) as [v0|] eqn:E0; [|reflexivity].
    destruct Hin as [-> | Hin]; [congruence|].
    apply IH; [assumption|].
    rewrite lookup_insert_ne; [assumption|]. intros ->. congruence.
Qed.

(** X14. The coercion of the integer parameters, in full: it raises
    [KeyError] exactly when one of the names is missing from the point;
    otherwise every named parameter holds the int of its suggested value
    (also when the name is listed twice) and every other parameter is
    untouched. *)
Theorem coerce_int_params_spec (int_params : list string)
    (next_point : gmap string pvalue) :
  match coerce_int_params int_params next_point with
  | Ok coerced =>
      (forall p, In p int_params ->
         exists v, next_point !! p = Some v
                   /\ coerced !! p = Some (PInt (py_int v)))
      /\ (forall p, ~ In p int_params -> coerced !! p = next_point !! p)
  | Raise e =>
      e = KeyError /\ exists p, In p int_params /\ next_point !! p = None
  end.
Proof.
  revert next_point. induction int_params as [|p0 ips IH]; intros pt; simpl.
  - split; [intros p [] | reflexivity].
  - destruct (pt !! p0) as [v0|] eqn:E0.
    + specialize (IH (<[p0:=PInt (py_int v0)]> pt)).
      destruct (coerce_int_params ips _) as [coerced|e].
      * destruct IH as [Hin Hout]. split.
        -- intros p Hp.
           destruct (in_dec string_dec p ips) as [Hips | Hnips].
           ++ destruct (Hin p Hips) as (v1 & Hv1 & Hc).
              destruct (decide (p = p0)) as [-> | Hne].
              ** rewrite lookup_insert_eq in Hv1. injection Hv1 as <-.
                 exists v0. split; [assumption|]. exact Hc.
              ** rewrite lookup_insert_ne in Hv1 by congruence. eauto.
           ++ destruct Hp as [<- | Hp]; [|contradiction].
              exists v0. split; [assumption|].
              rewrite (Hout p0 Hnips). apply lookup_insert_eq.
        -- intros p Hp. rewrite Hout by tauto.
           apply lookup_insert_ne. intros ->. tauto.
      * destruct IH as (-> & p & Hp & Hnone). split; [reflexivity|].
        exists p. split; [now right|].
        destruct (decide (p = p0)) as [-> | Hne].
        -- rewrite lookup_insert_eq in Hnone. discriminate.
        -- now rewrite lookup_insert_ne in Hnone by congruence.
    + split; [reflexivity|]. exists p0. split; [now left | assumption].
Qed.

Section OptimizerProperties.
Context {Opt : OptimizerLib}.

(** X15. When the loop of [optimize_model] completes, the objective was
    evaluated exactly [n_iter] times, whatever [register] did, and every
    point it was evaluated at (and that was handed to [register]) holds
    an int at each of the integer parameters. *)
Theorem optimization_loop_evaluations (n_iter : nat) (int_params : list string)
    (opt opt' : optimizer) (calls : list (gmap string pvalue * Q)) :
  optimization_loop n_iter int_params opt = Ok (opt', calls) ->
  List.length calls = n_iter
  /\ Forall (fun call =>
               objective (fst call) = Ok (snd call)
               /\ forall p, In p int_params -> exists z, fst call !! p = Some (PInt z))
            calls.
Proof.
  revert opt opt' calls. induction n_iter as [|n IH]; intros opt opt' calls; simpl.
  - intros Hrun. injection Hrun as <- <-. split; [reflexivity | constructor].
  - destruct (coerce_int_params _ _) as [pt|e] eqn:Ec; cbn [bind]; [|discriminate].
    destruct (objective pt) as [t|e] eqn:Et; cbn [bind]; [|discriminate].
    destruct (optimization_loop n int_params _) as [[o rest]|e] eqn:Er;
      cbn [bind]; [|discriminate].
    intros Hrun. injection Hrun as <- <-.
    destruct (IH _ _ _ Er) as [Hlen Hall]. simpl. split; [now rewrite Hlen|].
    constructor; [|assumption]. simpl. split; [assumption|].
    now apply (coerce_int_params_ints _ _ _ Ec).
Qed.

(** X16. A name in [int_params] that the first suggestion does not hold makes
    the whole call fail with [KeyError], before the objective is
    evaluated once. *)
Theorem optimize_model_unknown_int_param (pbounds : gmap string (Q * Q))
    (int_params : list string) (n_iter : nat) (p : string) :
  (0 < n_iter)%nat ->
  In p int_params ->
  snd (suggest (new_optimizer pbounds)) !! p = None ->
  optimize_model pbounds int_params n_iter = Raise KeyError.
Proof.
  intros Hn Hp Hnone. unfold optimize_model.
  destruct n_iter as [|n]; [lia|]. simpl.
  rewrite (coerce_int_params_missing int_params _ p Hp); [reflexivity|].
  now rewrite lookup_fmap, Hnone.
Qed.
End OptimizerProperties.

Lemma optimization_loop_evaluations_witness :
  List.length [(example_point 1, 1); (example_point 2, 1)] = 2%nat
  /\ Forall (fun call =>
               objective (OptimizerLib := example_optimizer) (fst call) = Ok (snd call)
               /\ forall p, In p ["degree"%string] ->
                            exists z, fst call !! p = Some (PInt z))
            [(example_point 1, 1); (example_point 2, 1)].
Proof.
  apply (optimization_loop_evaluations (Opt := example_optimizer) 2
           ["degree"%string] 0%nat 2%nat).
  unfold example_point. simpl.
  rewrite !fmap_insert, fmap_empty, !lookup_insert_eq, !insert_insert_eq.
  reflexivity.
Defined.

Lemma optimize_model_unknown_int_param_witness :
  optimize_model (Opt := example_optimizer) ∅ ["degre"%string] 25 = Raise KeyError.
Proof.
  apply (optimize_model_unknown_int_param (Opt := example_optimizer) ∅
           ["degre"%string] 25 "degre").
  - lia.
  - now left.
  - reflexivity.
Defined.
